(** * Crossword GUI ([gui.py]): solve orchestration and result rendering

    A shallow embedding of [CrosswordApp]: the grid formatter
    [_format_assignment], the click handler [_solve], the worker
    [_solve_in_thread] and the Tk event queue through which the worker
    publishes its effects ([root.after(0, ...)]).

    The solver itself ([crossword.Crossword], [generate.CrosswordCreator])
    is an external collaborator; it enters the development as a record of
    functions, [Adapter], over an opaque type of assignments. *)

From Stdlib Require Import List String Ascii Bool Arith Lia.
Import ListNotations.

Local Open Scope string_scope.
Local Open Scope list_scope.

(** ** Python values and exceptions *)

(** An instance of Python's [Exception].  The handlers of the worker
    tell exceptions apart only by [isinstance(exc, ImportError)] and print
    them with [str(exc)]. *)
Record PyException := mkExc {
  isinstance_ImportError : bool;
  exc_str : string
}.

Definition IndexError : PyException :=
  {| isinstance_ImportError := false; exc_str := "list index out of range" |}.

(** The outcome of evaluating a Python expression: a raised exception or a
    value. *)
Definition Py (A : Type) : Type := (PyException + A)%type.

Definition ret {A} (x : A) : Py A := inr x.

Definition bind {A B} (m : Py A) (k : A -> Py B) : Py B :=
  match m with
  | inl exc => inl exc
  | inr x => k x
  end.

Notation "x <- m ;; k" := (bind m (fun x => k))
  (at level 61, m at next level, right associativity).

(** [l[i]] for a non-negative index. *)
Definition getitem {A} (l : list A) (i : nat) : Py A :=
  match nth_error l i with
  | Some x => ret x
  | None => inl IndexError
  end.

(** [range(n)]. *)
Definition range (n : nat) : list nat := seq 0 n.

(** [for x in xs: body], the loop's mutable variables passed as [s]. *)
Fixpoint for_in {S} (xs : list nat) (body : nat -> S -> Py S) (s : S) : Py S :=
  match xs with
  | [] => ret s
  | x :: xs' => s' <- body x s ;; for_in xs' body s'
  end.

(** The newline character, Python's ["\n"]. *)
Definition NL : string := String "010"%char EmptyString.

(** [sep.join(ls)] is [String.concat sep ls]. *)
Definition join (sep : string) (ls : list string) : string := String.concat sep ls.

(** An entry of the grid returned by [letter_grid]: [None] or a string. *)
Inductive PyLetter :=
| PyNone
| PyStr (s : string).

(** Python truth value of an entry: [None] and the empty string are false. *)
Definition truthy (l : PyLetter) : bool :=
  match l with
  | PyNone => false
  | PyStr EmptyString => false
  | PyStr (String _ _) => true
  end.

(** [l or d]. *)
Definition py_or (l : PyLetter) (d : string) : string :=
  match l with
  | PyNone => d
  | PyStr EmptyString => d
  | PyStr s => s
  end.

(** ** The puzzle model, as far as the GUI reads it *)

(** Modelled from the spec: the class [Crossword] is declared in
    [crossword.py]; the GUI reads its dimensions and, per cell, whether the
    cell is part of the puzzle ([True]) or blocked ([False]). *)
Record Crossword := mkCrossword {
  height : nat;
  width : nat;
  structure : list (list bool)
}.

(** Modelled from the spec: the class [CrosswordCreator] is declared in
    [generate.py]; the GUI reads its [crossword] attribute. *)
Record CrosswordCreator := mkCreator {
  crossword : Crossword
}.

(** ** Tk widgets and the event queue *)

Inductive TkState := NORMAL | DISABLED.

(** What [root.after(0, ...)] is given in [gui.py]: one constructor per
    scheduled callable. *)
Inductive Callback :=
| write_output (text : string)     (* self._write_output, text *)
| showinfo (message : string)      (* lambda: messagebox.showinfo(...) *)
| showerror (message : string)     (* lambda: messagebox.showerror(...) *)
| status_set (text : string)       (* self.status_var.set, text *)
| button_normal.                   (* lambda: self.solve_button.config(state=tk.NORMAL) *)

Inductive Dialog :=
| InfoDialog (title message : string)
| ErrorDialog (title message : string).

(** The [tk.Text] widget showing the grid: insertions and deletions are
    ignored while its state is [DISABLED]. *)
Record TextWidget := mkText {
  text_state : TkState;
  text_content : string
}.

Definition text_config (st : TkState) (w : TextWidget) : TextWidget :=
  {| text_state := st; text_content := text_content w |}.

(** [w.delete("1.0", tk.END)]. *)
Definition text_delete_all (w : TextWidget) : TextWidget :=
  match text_state w with
  | NORMAL => {| text_state := NORMAL; text_content := "" |}
  | DISABLED => w
  end.

(** [w.insert(tk.END, text)]. *)
Definition text_insert_end (text : string) (w : TextWidget) : TextWidget :=
  match text_state w with
  | NORMAL => {| text_state := NORMAL; text_content := (text_content w ++ text)%string |}
  | DISABLED => w
  end.

(** A started [threading.Thread] whose target is [_solve_in_thread]: the
    calls of [root.after] it has still to make, and the exception that ends
    it, if one propagates out of the target. *)
Record Thread := mkThread {
  to_post : list Callback;
  uncaught : option PyException
}.

(** The fields of [CrosswordApp], the message boxes shown so far, the
    callbacks scheduled with [root.after(0, ...)] that have not run yet
    (oldest first), and the threads started so far. *)
Record App := mkApp {
  structure_path : string;
  words_path : string;
  output_path : string;
  status_var : string;
  solve_button : TkState;
  output : TextWidget;
  dialogs : list Dialog;
  after_queue : list Callback;
  threads : list Thread
}.

Definition DEFAULT_STRUCTURE : string := "data/structure0.txt".
Definition DEFAULT_WORDS : string := "data/words0.txt".

(** [CrosswordApp.__init__]. *)
Definition CrosswordApp_init : App :=
  {| structure_path := DEFAULT_STRUCTURE;
     words_path := DEFAULT_WORDS;
     output_path := "";
     status_var := "Idle";
     solve_button := NORMAL;
     output := {| text_state := DISABLED; text_content := "" |};
     dialogs := [];
     after_queue := [];
     threads := [] |}.

Definition set_paths (sp wp op : string) (app : App) : App :=
  {| structure_path := sp; words_path := wp; output_path := op;
     status_var := status_var app; solve_button := solve_button app;
     output := output app; dialogs := dialogs app;
     after_queue := after_queue app; threads := threads app |}.

Definition set_status_var (text : string) (app : App) : App :=
  {| structure_path := structure_path app; words_path := words_path app;
     output_path := output_path app;
     status_var := text; solve_button := solve_button app;
     output := output app; dialogs := dialogs app;
     after_queue := after_queue app; threads := threads app |}.

Definition set_solve_button (st : TkState) (app : App) : App :=
  {| structure_path := structure_path app; words_path := words_path app;
     output_path := output_path app;
     status_var := status_var app; solve_button := st;
     output := output app; dialogs := dialogs app;
     after_queue := after_queue app; threads := threads app |}.

Definition set_output (w : TextWidget) (app : App) : App :=
  {| structure_path := structure_path app; words_path := words_path app;
     output_path := output_path app;
     status_var := status_var app; solve_button := solve_button app;
     output := w; dialogs := dialogs app;
     after_queue := after_queue app; threads := threads app |}.

Definition add_dialog (d : Dialog) (app : App) : App :=
  {| structure_path := structure_path app; words_path := words_path app;
     output_path := output_path app;
     status_var := status_var app; solve_button := solve_button app;
     output := output app; dialogs := dialogs app ++ [d];
     after_queue := after_queue app; threads := threads app |}.

Definition set_after_queue (q : list Callback) (app : App) : App :=
  {| structure_path := structure_path app; words_path := words_path app;
     output_path := output_path app;
     status_var := status_var app; solve_button := solve_button app;
     output := output app; dialogs := dialogs app;
     after_queue := q; threads := threads app |}.

Definition set_threads (ts : list Thread) (app : App) : App :=
  {| structure_path := structure_path app; words_path := words_path app;
     output_path := output_path app;
     status_var := status_var app; solve_button := solve_button app;
     output := output app; dialogs := dialogs app;
     after_queue := after_queue app; threads := ts |}.

(** [CrosswordApp._write_output]. *)
Definition _write_output (text : string) (app : App) : App :=
  set_output
    (text_config DISABLED
      (text_insert_end text
        (text_delete_all
          (text_config NORMAL (output app))))) app.

(** The event loop running one scheduled callback. *)
Definition run_callback (cb : Callback) (app : App) : App :=
  match cb with
  | write_output text => _write_output text app
  | showinfo message => add_dialog (InfoDialog "Crossword Solver" message) app
  | showerror message => add_dialog (ErrorDialog "Crossword Solver" message) app
  | status_set text => set_status_var text app
  | button_normal => set_solve_button NORMAL app
  end.

(** ** Code that schedules callbacks

    A computation that calls [root.after] and may raise: the callbacks it
    has scheduled, in order, and its outcome. *)
Definition Posting (A : Type) : Type := (list Callback * Py A)%type.

Definition pret {A} (x : A) : Posting A := ([], ret x).

Definition pbind {A B} (m : Posting A) (k : A -> Posting B) : Posting B :=
  match snd m with
  | inl exc => (fst m, inl exc)
  | inr x => (fst m ++ fst (k x), snd (k x))
  end.

Notation "x <~ m ;; k" := (pbind m (fun x => k))
  (at level 61, m at next level, right associativity).
Notation "m ;;; k" := (pbind m (fun _ => k))
  (at level 61, right associativity).

(** A call that schedules nothing itself. *)
Definition call {A} (m : Py A) : Posting A := ([], m).

(** [try: body / except Exception as exc: handler]. *)
Definition try_except {A} (body : Posting A) (handler : PyException -> Posting A)
    : Posting A :=
  match snd body with
  | inl exc => (fst body ++ fst (handler exc), snd (handler exc))
  | inr _ => body
  end.

(** [self.root.after(0, cb)]. *)
Definition after0 (cb : Callback) : Posting unit := ([cb], ret tt).

Definition _set_output (text : string) : Posting unit := after0 (write_output text).
Definition _clear_output : Posting unit := _set_output "".
Definition _notify_info (message : string) : Posting unit := after0 (showinfo message).
Definition _notify_error (message : string) : Posting unit := after0 (showerror message).
Definition _set_status (text : string) : Posting unit := after0 (status_set text).
Definition _enable_button : Posting unit := after0 button_normal.

(** Python truth value of a string. *)
Definition nonempty (s : string) : bool :=
  match s with
  | EmptyString => false
  | String _ _ => true
  end.

Section Gui.

(** The solver's assignments are opaque to the GUI. *)
Variable Assignment : Type.

(** The external collaborator: the constructors and methods of
    [Crossword] and [CrosswordCreator] that [gui.py] calls. *)
Record Adapter := mkAdapter {
  Crossword_new : string -> string -> Py Crossword;
  CrosswordCreator_new : Crossword -> Py CrosswordCreator;
  solve : CrosswordCreator -> Py (option Assignment);
  letter_grid : CrosswordCreator -> Assignment -> list (list PyLetter);
  save : CrosswordCreator -> Assignment -> string -> Py unit
}.

(** ** [CrosswordApp._format_assignment] *)

Definition _format_assignment (a : Adapter) (creator : CrosswordCreator)
    (assignment : Assignment) : Py string :=
  let letters := letter_grid a creator assignment in
  lines <- for_in (range (height (crossword creator))) (fun i lines =>
    row_chars <- for_in (range (width (crossword creator))) (fun j row_chars =>
      srow <- getitem (structure (crossword creator)) i ;;
      cell <- getitem srow j ;;
      if (cell : bool) then
        lrow <- getitem letters i ;;
        letter <- getitem lrow j ;;
        ret (row_chars ++ [py_or letter " "])
      else
        ret (row_chars ++ ["#"])) [] ;;
    ret (lines ++ [join "" row_chars])) [] ;;
  ret (join NL lines).

(** The body of the first [try] of [_solve_in_thread]. *)
Definition construct_and_solve (a : Adapter) (app : App)
    : Py (CrosswordCreator * option Assignment) :=
  crossword <- Crossword_new a (structure_path app) (words_path app) ;;
  creator <- CrosswordCreator_new a crossword ;;
  assignment <- solve a creator ;;
  ret (creator, assignment).

(** ** [CrosswordApp._solve_in_thread]

    The paths are the values of the three [StringVar]s when the worker
    reads them. *)
Definition _solve_in_thread (a : Adapter) (app : App) : Posting unit :=
  match construct_and_solve a app with
  | inl exc =>
      _notify_error ("Error while solving: " ++ exc_str exc)%string ;;;
      _set_status "Error" ;;;
      _enable_button
  | inr (creator, None) =>
      _set_status "No solution found" ;;;
      _notify_info "No solution could be generated for the chosen files." ;;;
      _clear_output ;;;
      _enable_button
  | inr (creator, Some assignment) =>
      grid_text <~ call (_format_assignment a creator assignment) ;;
      _set_output grid_text ;;;
      _set_status "Solved" ;;;
      (if nonempty (output_path app) then
         try_except
           (call (save a creator assignment (output_path app)) ;;;
            _notify_info ("Image saved to " ++ output_path app)%string)
           (fun exc =>
              if isinstance_ImportError exc then
                _notify_error
                  "Pillow is required to save an image. Install it with 'pip install pillow'."
              else
                _notify_error ("Could not save image: " ++ exc_str exc)%string)
       else pret tt) ;;;
      _enable_button
  end.

(** [threading.Thread(target=self._solve_in_thread, daemon=True)].

    The worker reads the entries as it runs (the structure and words paths
    at line 106, the output path at lines 127, 129 and 130).  The thread
    holds what the worker schedules when the entries keep, while it runs,
    the values they have at the click; what an edit of the entries during
    a solve changes in the worker's callbacks is not followed. *)
Definition Thread_new (a : Adapter) (app : App) : Thread :=
  {| to_post := fst (_solve_in_thread a app);
     uncaught := match snd (_solve_in_thread a app) with
                 | inl exc => Some exc
                 | inr _ => None
                 end |}.

(** ** [CrosswordApp._solve]

    Runs on the interactive thread: its own [root.after] goes to the
    queue at once, the button is configured directly. *)
Definition _solve (a : Adapter) (app : App) : App :=
  let app := set_after_queue (after_queue app ++ fst (_set_status "Solving...")) app in
  let app := set_solve_button DISABLED app in
  let worker := Thread_new a app in
  set_threads (threads app ++ [worker]) app.

(** The Solve button: Tk invokes [command] only while the button is not
    disabled. *)
Definition click (a : Adapter) (app : App) : App :=
  match solve_button app with
  | NORMAL => _solve a app
  | DISABLED => app
  end.

(** ** The running application

    One step is: a click on the Solve button; an edit of the three entries;
    the event loop running the oldest scheduled callback; or a worker
    thread making its next call of [root.after]. *)
Inductive Label :=
| Click
| Edit
| Run (cb : Callback)
| Post (cb : Callback).

Inductive step : App -> Label -> App -> Prop :=
| step_click a app :
    solve_button app = NORMAL ->
    step app Click (_solve a app)
| step_edit sp wp op app :
    step app Edit (set_paths sp wp op app)
| step_run cb q app :
    after_queue app = cb :: q ->
    step app (Run cb) (run_callback cb (set_after_queue q app))
| step_post ts1 cb rest exc ts2 app :
    threads app = ts1 ++ mkThread (cb :: rest) exc :: ts2 ->
    step app (Post cb)
      (set_threads (ts1 ++ mkThread rest exc :: ts2)
         (set_after_queue (after_queue app ++ [cb]) app)).

Inductive exec : App -> list Label -> App -> Prop :=
| exec_nil app : exec app [] app
| exec_cons app l app' tr app'' :
    step app l app' -> exec app' tr app'' -> exec app (l :: tr) app''.

Definition reachable (app : App) : Prop :=
  exists tr, exec CrosswordApp_init tr app.

End Gui.

Arguments Crossword_new {Assignment}.
Arguments CrosswordCreator_new {Assignment}.
Arguments solve {Assignment}.
Arguments letter_grid {Assignment}.
Arguments save {Assignment}.
Arguments _format_assignment {Assignment}.
Arguments construct_and_solve {Assignment}.
Arguments _solve_in_thread {Assignment}.
Arguments Thread_new {Assignment}.
Arguments _solve {Assignment}.
Arguments click {Assignment}.

(** ** What the formatter is expected to print

    The cell, row and grid texts read off the structure and the letter
    grid, with no loop and no failure: the reference the loops of
    [_format_assignment] are compared with. *)

Definition is_open (cw : Crossword) (i j : nat) : bool :=
  nth j (nth i (structure cw) []) false.

Definition letter_at (letters : list (list PyLetter)) (i j : nat) : PyLetter :=
  nth j (nth i letters []) PyNone.

Definition cell_text (cw : Crossword) (letters : list (list PyLetter))
    (i j : nat) : string :=
  if is_open cw i j then py_or (letter_at letters i j) " " else "#".

Definition row_text (cw : Crossword) (letters : list (list PyLetter))
    (i : nat) : string :=
  join "" (map (cell_text cw letters i) (range (width cw))).

Definition grid_lines (cw : Crossword) (letters : list (list PyLetter))
    : list string :=
  map (row_text cw letters) (range (height cw)).

(** A grid has at least [h] rows of at least [w] entries each. *)
Definition covers {A} (h w : nat) (g : list (list A)) : bool :=
  forallb (fun i => match nth_error g i with
                    | Some row => (w <=? List.length row)%nat
                    | None => false
                    end) (range h).

(** An entry is [None] or a string of at most one character. *)
Definition optional_char (l : PyLetter) : bool :=
  match l with
  | PyNone => true
  | PyStr s => (String.length s <=? 1)%nat
  end.

(** Modelled from the spec: the adapter's contract on what the formatter
    reads.  The structure and the letter grid are [height] by [width], and
    the letter grid is a grid of optional characters. *)
Definition well_formed (cw : Crossword) (letters : list (list PyLetter)) : bool :=
  covers (height cw) (width cw) (structure cw)
  && covers (height cw) (width cw) letters
  && forallb (forallb optional_char) letters.

(** ** The event loop and the session's states *)

(** The event loop running scheduled callbacks one after the other. *)
Definition run_all (cbs : list Callback) (app : App) : App :=
  fold_left (fun app cb => run_callback cb app) cbs app.

(** The three status texts that end a solve. *)
Definition terminal (text : string) : bool :=
  ((text =? "Solved") || (text =? "No solution found") || (text =? "Error"))%string.

(** The status texts outside a solve: the initial one and the terminal ones. *)
Definition at_rest (text : string) : bool :=
  ((text =? "Idle")%string || terminal text).

Definition is_status (cb : Callback) : bool :=
  match cb with status_set _ => true | _ => false end.

Definition is_enable (cb : Callback) : bool :=
  match cb with button_normal => true | _ => false end.

(** The callbacks that touch neither the status nor the button. *)
Definition quiet (cb : Callback) : bool :=
  match cb with
  | write_output _ | showinfo _ | showerror _ => true
  | status_set _ | button_normal => false
  end.

(** What a worker has still to schedule once its terminal status is
    scheduled: notifications and output, then the enabling of the button. *)
Inductive closing : list Callback -> Prop :=
| closing_enable : closing [button_normal]
| closing_quiet cb l : quiet cb = true -> closing l -> closing (cb :: l).

(** What a worker has still to schedule before that: notifications and
    output, one terminal status, then a closing sequence. *)
Inductive publishing : list Callback -> Prop :=
| publishing_status t l :
    terminal t = true -> closing l -> publishing (status_set t :: l)
| publishing_quiet cb l :
    quiet cb = true -> publishing l -> publishing (cb :: l).

(** A worker schedules nothing (an exception ended it) or publishes. *)
Definition script (l : list Callback) : Prop := l = [] \/ publishing l.

Definition has_posts (t : Thread) : bool :=
  match to_post t with [] => false | _ :: _ => true end.

(** The callbacks not yet run: those in the queue, then those the threads
    have still to schedule. *)
Definition pending (app : App) : list Callback :=
  after_queue app ++ List.concat (map to_post (threads app)).

(** The phases of the application, by the button, the status text and the
    callbacks not yet run. *)
Inductive Phase : TkState -> string -> list Callback -> Prop :=
| phase_rest status :
    at_rest status = true ->
    Phase NORMAL status []
| phase_starting status w :
    at_rest status = true -> script w ->
    Phase DISABLED status (status_set "Solving..." :: w)
| phase_solving w :
    script w ->
    Phase DISABLED "Solving..." w
| phase_closing t l :
    terminal t = true -> closing l ->
    Phase DISABLED t l.

Definition Inv (app : App) : Prop :=
  List.length (filter has_posts (threads app)) <= 1
  /\ Phase (solve_button app) (status_var app) (pending app).

(** The callbacks scheduled, and those run, along an execution. *)
Definition posted (tr : list Label) : list Callback :=
  flat_map (fun l => match l with
                     | Click => [status_set "Solving..."]
                     | Post cb => [cb]
                     | Edit | Run _ => []
                     end) tr.

Definition applied (tr : list Label) : list Callback :=
  flat_map (fun l => match l with
                     | Run cb => [cb]
                     | Click | Edit | Post _ => []
                     end) tr.

Definition is_post (l : Label) : bool :=
  match l with Post _ => true | _ => false end.

(** ** The worker's messages *)

Definition PILLOW_MESSAGE : string :=
  "Pillow is required to save an image. Install it with 'pip install pillow'.".

Definition NO_SOLUTION_MESSAGE : string :=
  "No solution could be generated for the chosen files.".

(** The notification of the optional image export: what the last [if] of
    [_solve_in_thread] schedules. *)
Definition export_notice {Assignment} (a : Adapter Assignment) (app : App)
    (creator : CrosswordCreator) (assignment : Assignment) : list Callback :=
  if nonempty (output_path app) then
    match save a creator assignment (output_path app) with
    | inr _ => [showinfo ("Image saved to " ++ output_path app)%string]
    | inl exc =>
        if isinstance_ImportError exc then [showerror PILLOW_MESSAGE]
        else [showerror ("Could not save image: " ++ exc_str exc)%string]
    end
  else [].

(** ** Example collaborators

    A two-row puzzle, its solution, and adapters for the outcomes a solve
    can have.  An assignment is represented here by its letter grid. *)

Definition example_crossword : Crossword :=
  {| height := 2; width := 3;
     structure := [[true; true; true]; [false; true; false]] |}.

Definition example_letters : list (list PyLetter) :=
  [[PyStr "C"; PyStr "A"; PyStr "T"]; [PyNone; PyStr "T"; PyNone]].

Definition example_partial : list (list PyLetter) :=
  [[PyStr "C"; PyNone; PyStr ""]; [PyNone; PyStr "T"; PyNone]].

Definition example_creator : CrosswordCreator :=
  {| crossword := example_crossword |}.

Definition adapter_solved : Adapter (list (list PyLetter)) :=
  {| Crossword_new := fun _ _ => ret example_crossword;
     CrosswordCreator_new := fun cw => ret {| crossword := cw |};
     solve := fun _ => ret (Some example_letters);
     letter_grid := fun _ assignment => assignment;
     save := fun _ _ _ => ret tt |}.

Definition adapter_no_solution : Adapter (list (list PyLetter)) :=
  {| Crossword_new := fun _ _ => ret example_crossword;
     CrosswordCreator_new := fun cw => ret {| crossword := cw |};
     solve := fun _ => ret None;
     letter_grid := fun _ assignment => assignment;
     save := fun _ _ _ => ret tt |}.

Definition FileNotFoundError (path : string) : PyException :=
  {| isinstance_ImportError := false;
     exc_str := ("[Errno 2] No such file or directory: '" ++ path ++ "'")%string |}.

Definition adapter_missing_file : Adapter (list (list PyLetter)) :=
  {| Crossword_new := fun structure_file _ => inl (FileNotFoundError structure_file);
     CrosswordCreator_new := fun cw => ret {| crossword := cw |};
     solve := fun _ => ret None;
     letter_grid := fun _ assignment => assignment;
     save := fun _ _ _ => ret tt |}.

Definition ModuleNotFoundError : PyException :=
  {| isinstance_ImportError := true; exc_str := "No module named 'PIL'" |}.

Definition adapter_no_pillow : Adapter (list (list PyLetter)) :=
  {| Crossword_new := fun _ _ => ret example_crossword;
     CrosswordCreator_new := fun cw => ret {| crossword := cw |};
     solve := fun _ => ret (Some example_letters);
     letter_grid := fun _ assignment => assignment;
     save := fun _ _ _ => inl ModuleNotFoundError |}.

Definition adapter_partial : Adapter (list (list PyLetter)) :=
  {| Crossword_new := fun _ _ => ret example_crossword;
     CrosswordCreator_new := fun cw => ret {| crossword := cw |};
     solve := fun _ => ret (Some example_partial);
     letter_grid := fun _ assignment => assignment;
     save := fun _ _ _ => ret tt |}.

(** The application with an output path entered. *)
Definition app_with_output : App :=
  set_paths DEFAULT_STRUCTURE DEFAULT_WORDS "out.png" CrosswordApp_init.

(** The solver of a puzzle whose letter grid lacks a row and two columns. *)
Definition adapter_short_grid : Adapter (list (list PyLetter)) :=
  {| Crossword_new := fun _ _ => ret example_crossword;
     CrosswordCreator_new := fun cw => ret {| crossword := cw |};
     solve := fun _ => ret (Some [[PyStr "C"]]);
     letter_grid := fun _ assignment => assignment;
     save := fun _ _ _ => ret tt |}.

Definition example_text : string := ("CAT" ++ NL ++ "#T#")%string.

(** The application showing the example's solution. *)
Definition app_showing_grid : App :=
  run_all [write_output example_text; status_set "Solved"] CrosswordApp_init.

(** Two moves of the running application, as functions: the event loop
    runs the oldest scheduled callback; the first thread schedules its next
    callback. *)
Definition run_next (app : App) : App :=
  match after_queue app with
  | cb :: q => run_callback cb (set_after_queue q app)
  | [] => app
  end.

Definition post_next (app : App) : App :=
  match threads app with
  | {| to_post := cb :: rest; uncaught := exc |} :: ts =>
      set_threads ({| to_post := rest; uncaught := exc |} :: ts)
        (set_after_queue (after_queue app ++ [cb]) app)
  | _ => app
  end.

(** The application after a click on Solve; after the event loop has then
    run the scheduled status update; after the worker has then scheduled
    the grid; and after the worker has also scheduled the status [Solved]
    and the event loop has run both callbacks, the worker not having
    scheduled the enabling of the button yet. *)
Definition app_clicked : App := _solve adapter_solved CrosswordApp_init.

Definition app_solving : App := run_next app_clicked.

Definition app_posted : App := post_next app_solving.

Definition app_published : App := run_next (run_next (post_next app_posted)).

(** The application once that solve is over: the worker has scheduled the
    enabling of the button and the event loop has run it.  Then after a
    second click. *)
Definition app_done : App := run_next (post_next app_published).

Definition app_clicked_again : App := _solve adapter_solved app_done.

(** ** Counting and observing *)

(** [g[i][j]]. *)
Definition getitem2 {A} (g : list (list A)) (i j : nat) : Py A :=
  row <- getitem g i ;; getitem row j.

Definition is_dialog (cb : Callback) : bool :=
  match cb with showinfo _ | showerror _ => true | _ => false end.

Definition is_write (cb : Callback) : bool :=
  match cb with write_output _ => true | _ => false end.

(** The message box a callback opens, if it opens one. *)
Definition dialog_of (cb : Callback) : list Dialog :=
  match cb with
  | showinfo message => [InfoDialog "Crossword Solver" message]
  | showerror message => [ErrorDialog "Crossword Solver" message]
  | write_output _ | status_set _ | button_normal => []
  end.

Definition is_click (l : Label) : bool :=
  match l with Click => true | _ => false end.

(** The steps of the event loop and of the workers. *)
Definition is_run_or_post (l : Label) : bool :=
  match l with Run _ | Post _ => true | Click | Edit => false end.

(** A thread ended by an exception that left its target. *)
Definition crashed (t : Thread) : bool :=
  match uncaught t with Some _ => true | None => false end.

(** What the user sees of a solve: the status, the output and the message
    boxes. *)
Definition obs (app : App) : string * TextWidget * list Dialog :=
  (status_var app, output app, dialogs app).

(** The adapter with another [save]. *)
Definition with_save {Assignment} (a : Adapter Assignment)
    (save' : CrosswordCreator -> Assignment -> string -> Py unit)
    : Adapter Assignment :=
  {| Crossword_new := Crossword_new a;
     CrosswordCreator_new := CrosswordCreator_new a;
     solve := solve a;
     letter_grid := letter_grid a;
     save := save' |}.

(** While the button is disabled, either a thread was ended by an
    exception or the enabling of the button is still to come, as the last
    of the callbacks not yet run. *)
Definition Recovering (app : App) : Prop :=
  solve_button app = DISABLED ->
  existsb crashed (threads app) = true
  \/ exists l, pending app = l ++ [button_normal].

(** ** More example collaborators *)

(** A letter grid that differs from the example's solution on blocked
    cells only: another entry at (1, 0) and none at (1, 2). *)
Definition example_letters_ragged : list (list PyLetter) :=
  [[PyStr "C"; PyStr "A"; PyStr "T"]; [PyStr "X"; PyStr "T"]].

Definition adapter_ragged : Adapter (list (list PyLetter)) :=
  {| Crossword_new := fun _ _ => ret example_crossword;
     CrosswordCreator_new := fun cw => ret {| crossword := cw |};
     solve := fun _ => ret (Some example_letters_ragged);
     letter_grid := fun _ assignment => assignment;
     save := fun _ _ _ => ret tt |}.

(** A puzzle of two rows and no column, what [Crossword] builds from a
    structure file of two empty lines. *)
Definition example_creator_no_column : CrosswordCreator :=
  {| crossword := {| height := 2; width := 0; structure := [[]; []] |} |}.

(** The application after a click on Solve whose worker is ended by the
    formatter's [IndexError], once the event loop has run the status
    update. *)
Definition app_stuck : App :=
  run_next (_solve adapter_short_grid CrosswordApp_init).

(** * Properties of the formatter *)

Section Formatter.

Variable Assignment : Type.
Variable a : Adapter Assignment.

Lemma for_in_appends {A} (f : nat -> A) (body : nat -> list A -> Py (list A)) :
  forall xs acc,
    (forall x acc', In x xs -> body x acc' = inr (acc' ++ [f x])) ->
    for_in xs body acc = inr (acc ++ map f xs).
Proof.
  induction xs as [|x xs IH]; intros acc Hbody; simpl.
  - now rewrite app_nil_r.
  - rewrite (Hbody x acc (or_introl eq_refl)). simpl.
    rewrite IH by (intros; apply Hbody; now right).
    now rewrite <- app_assoc.
Qed.

Lemma covers_getitem {A} (h w : nat) (g : list (list A)) (d : A) i j :
  covers h w g = true -> i < h -> j < w ->
  exists row, getitem g i = inr row /\ nth i g [] = row
              /\ getitem row j = inr (nth j row d).
Proof.
  unfold covers. rewrite forallb_forall. intros Hc Hi Hj.
  specialize (Hc i). unfold range in Hc. rewrite in_seq in Hc.
  specialize (Hc ltac:(lia)).
  unfold getitem.
  destruct (nth_error g i) as [row|] eqn:Hrow; [|discriminate].
  apply Nat.leb_le in Hc.
  exists row. split; [reflexivity|]. split.
  - now apply nth_error_nth.
  - destruct (nth_error row j) as [x|] eqn:Hx.
    + now rewrite (nth_error_nth _ _ d Hx).
    + apply nth_error_None in Hx. lia.
Qed.

Lemma format_assignment_lines (creator : CrosswordCreator) (assignment : Assignment) :
  well_formed (crossword creator) (letter_grid a creator assignment) = true ->
  _format_assignment a creator assignment
  = inr (join NL (grid_lines (crossword creator) (letter_grid a creator assignment))).
Proof.
  unfold well_formed. rewrite !andb_true_iff. intros [[Hs Hl] _].
  unfold _format_assignment.
  set (cw := crossword creator) in *.
  set (letters := letter_grid a creator assignment) in *.
  rewrite (for_in_appends (row_text cw letters)).
  - reflexivity.
  - intros i lines Hi. unfold range in Hi. apply in_seq in Hi.
    rewrite (for_in_appends (cell_text cw letters i)).
    + reflexivity.
    + intros j row_chars Hj. unfold range in Hj. apply in_seq in Hj.
      destruct (covers_getitem _ _ _ false i j Hs) as (srow & Hg1 & Hsrow & Hg2);
        try lia.
      destruct (covers_getitem _ _ _ PyNone i j Hl) as (lrow & Hg3 & Hlrow & Hg4);
        try lia.
      unfold cell_text, is_open, letter_at. rewrite Hsrow, Hlrow.
      rewrite Hg1. simpl. rewrite Hg2. simpl.
      destruct (nth j srow false); [|reflexivity].
      rewrite Hg3. simpl. rewrite Hg4. reflexivity.
Qed.

(** *** Strings built by [join] *)

Lemma length_append (s1 s2 : string) :
  String.length (s1 ++ s2)%string = String.length s1 + String.length s2.
Proof.
  induction s1 as [|c s1 IH]; simpl; [reflexivity | now rewrite IH].
Qed.

Lemma join_cons (sep x : string) (xs : list string) :
  xs <> [] -> join sep (x :: xs) = (x ++ sep ++ join sep xs)%string.
Proof.
  destruct xs; [congruence | reflexivity].
Qed.

Lemma append_empty_r (s : string) : (s ++ "")%string = s.
Proof.
  induction s as [|c s IH]; simpl; [reflexivity | now rewrite IH].
Qed.

Lemma join_empty_cons (x : string) (xs : list string) :
  join "" (x :: xs) = (x ++ join "" xs)%string.
Proof.
  destruct xs; [simpl; now rewrite append_empty_r | reflexivity].
Qed.

Lemma length_join_chars (l : list string) :
  Forall (fun s => String.length s = 1) l ->
  String.length (join "" l) = List.length l.
Proof.
  induction 1 as [|x xs Hx _ IH]; [reflexivity|].
  rewrite join_empty_cons, length_append, IH, Hx. reflexivity.
Qed.

Lemma get_join_chars (l : list string) :
  Forall (fun s => String.length s = 1) l ->
  forall j, j < List.length l ->
  String.get j (join "" l) = String.get 0 (nth j l "").
Proof.
  induction 1 as [|x xs Hx Hxs IH]; intros j Hj; simpl in Hj; [lia|].
  rewrite join_empty_cons.
  destruct x as [|c [|c' x']]; simpl in Hx; try discriminate.
  destruct j as [|j]; [reflexivity|].
  simpl. apply IH. lia.
Qed.

Lemma get_join_lines (w : nat) (lines : list string) :
  Forall (fun s => String.length s = w) lines ->
  forall i j, i < List.length lines -> j < w ->
  String.get (i * (w + 1) + j) (join NL lines) = String.get j (nth i lines "").
Proof.
  induction 1 as [|x xs Hx Hxs IH]; intros i j Hi Hj; simpl in Hi; [lia|].
  destruct xs as [|y ys].
  - simpl in Hi. assert (i = 0) by lia. subst. reflexivity.
  - rewrite join_cons by discriminate.
    destruct i as [|i].
    + simpl. symmetry. apply append_correct1. lia.
    + replace (S i * (w + 1) + j) with ((1 + (i * (w + 1) + j)) + String.length x)
        by (rewrite Hx; lia).
      rewrite <- append_correct2.
      change (NL ++ join NL (y :: ys))%string
        with (String "010"%char (join NL (y :: ys))).
      simpl String.get at 1.
      rewrite IH by (simpl in *; lia). reflexivity.
Qed.

Lemma length_join_lines (w : nat) (lines : list string) :
  Forall (fun s => String.length s = w) lines ->
  String.length (join NL lines) = List.length lines * (w + 1) - 1.
Proof.
  induction 1 as [|x xs Hx Hxs IH]; [reflexivity|].
  destruct xs as [|y ys].
  - simpl. lia.
  - rewrite join_cons by discriminate.
    rewrite !length_append, IH, Hx. simpl. lia.
Qed.

(** *** The cells and rows of a well-formed grid *)

Lemma optional_char_letter_at (letters : list (list PyLetter)) i j :
  forallb (forallb optional_char) letters = true ->
  optional_char (letter_at letters i j) = true.
Proof.
  intros Hall. unfold letter_at.
  destruct (nth_in_or_default i letters []) as [Hin | ->].
  - rewrite forallb_forall in Hall. specialize (Hall _ Hin).
    destruct (nth_in_or_default j (nth i letters []) PyNone) as [Hin' | ->];
      [|reflexivity].
    rewrite forallb_forall in Hall. now apply Hall.
  - now destruct j.
Qed.

Lemma length_py_or (l : PyLetter) :
  optional_char l = true -> String.length (py_or l " ") = 1.
Proof.
  destruct l as [|[|c [|c' s]]]; simpl; intros H; try reflexivity; discriminate.
Qed.

Lemma length_cell_text cw letters i j :
  forallb (forallb optional_char) letters = true ->
  String.length (cell_text cw letters i j) = 1.
Proof.
  intros Hall. unfold cell_text.
  destruct (is_open cw i j); [|reflexivity].
  apply length_py_or. now apply optional_char_letter_at.
Qed.

Lemma length_row_text cw letters i :
  forallb (forallb optional_char) letters = true ->
  String.length (row_text cw letters i) = width cw.
Proof.
  intros Hall. unfold row_text.
  rewrite length_join_chars.
  - unfold range. now rewrite length_map, length_seq.
  - apply Forall_forall. intros s Hs. apply in_map_iff in Hs.
    destruct Hs as (j & <- & _). now apply length_cell_text.
Qed.

Lemma get_row_text cw letters i j :
  forallb (forallb optional_char) letters = true ->
  j < width cw ->
  String.get j (row_text cw letters i) = String.get 0 (cell_text cw letters i j).
Proof.
  intros Hall Hj. unfold row_text.
  rewrite get_join_chars.
  - unfold range.
    rewrite (nth_indep _ "" (cell_text cw letters i 0))
      by now rewrite length_map, length_seq.
    rewrite map_nth, seq_nth by lia. reflexivity.
  - apply Forall_forall. intros s Hs. apply in_map_iff in Hs.
    destruct Hs as (k & <- & _). now apply length_cell_text.
  - unfold range. now rewrite length_map, length_seq.
Qed.

Lemma nth_grid_lines cw letters i :
  i < height cw -> nth i (grid_lines cw letters) "" = row_text cw letters i.
Proof.
  intros Hi. unfold grid_lines, range.
  rewrite (nth_indep _ "" (row_text cw letters 0))
    by now rewrite length_map, length_seq.
  rewrite map_nth, seq_nth by lia. reflexivity.
Qed.

Lemma get_grid_text cw letters i j :
  forallb (forallb optional_char) letters = true ->
  i < height cw -> j < width cw ->
  String.get (i * (width cw + 1) + j) (join NL (grid_lines cw letters))
  = String.get 0 (cell_text cw letters i j).
Proof.
  intros Hall Hi Hj.
  rewrite get_join_lines.
  - rewrite nth_grid_lines by exact Hi. now apply get_row_text.
  - apply Forall_forall. intros s Hs. apply in_map_iff in Hs.
    destruct Hs as (k & <- & _). now apply length_row_text.
  - unfold grid_lines, range. now rewrite length_map, length_seq.
  - exact Hj.
Qed.

(** C4. For a puzzle model of dimensions [height] by [width] and any
    assignment whose letter grid the adapter returns with these dimensions,
    [_format_assignment] returns a text that is [height] lines joined by
    newlines, each of [width] characters, line [i] being the text of row [i]
    (row 0 first); its length is [height * (width + 1) - 1]. *)
Theorem format_assignment_shape (creator : CrosswordCreator) (assignment : Assignment) :
  well_formed (crossword creator) (letter_grid a creator assignment) = true ->
  exists lines,
    _format_assignment a creator assignment = inr (join NL lines)
    /\ List.length lines = height (crossword creator)
    /\ Forall (fun l => String.length l = width (crossword creator)) lines
    /\ (forall i, i < height (crossword creator) ->
          nth i lines ""
          = row_text (crossword creator) (letter_grid a creator assignment) i)
    /\ String.length (join NL lines)
       = height (crossword creator) * (width (crossword creator) + 1) - 1.
Proof.
  intros Hwf.
  exists (grid_lines (crossword creator) (letter_grid a creator assignment)).
  split; [now apply format_assignment_lines|].
  unfold well_formed in Hwf. rewrite !andb_true_iff in Hwf.
  destruct Hwf as [_ Hchars].
  assert (Hlen : List.length
                   (grid_lines (crossword creator)
                      (letter_grid a creator assignment))
                 = height (crossword creator)).
  { unfold grid_lines, range. now rewrite length_map, length_seq. }
  assert (Hrows : Forall (fun l => String.length l = width (crossword creator))
                    (grid_lines (crossword creator)
                       (letter_grid a creator assignment))).
  { apply Forall_forall. intros s Hs. apply in_map_iff in Hs.
    destruct Hs as (k & <- & _). now apply length_row_text. }
  split; [exact Hlen|]. split; [exact Hrows|]. split.
  - intros i Hi. now apply nth_grid_lines.
  - now rewrite (length_join_lines _ _ Hrows), Hlen.
Qed.

(** C5. In the formatted text, the character of cell [(i, j)] (at offset
    [i * (width + 1) + j]) is ['#'] when the cell is blocked, whatever the
    assignment; a space when the cell is open and the letter grid has
    [None] there; and the letter itself when the cell is open and a letter
    is assigned. *)
Theorem format_assignment_cell (creator : CrosswordCreator) (assignment : Assignment)
    (i j : nat) :
  well_formed (crossword creator) (letter_grid a creator assignment) = true ->
  i < height (crossword creator) ->
  j < width (crossword creator) ->
  exists text,
    _format_assignment a creator assignment = inr text
    /\ (is_open (crossword creator) i j = false ->
          String.get (i * (width (crossword creator) + 1) + j) text = Some "#"%char)
    /\ (is_open (crossword creator) i j = true ->
          letter_at (letter_grid a creator assignment) i j = PyNone ->
          String.get (i * (width (crossword creator) + 1) + j) text = Some " "%char)
    /\ (forall c,
          is_open (crossword creator) i j = true ->
          letter_at (letter_grid a creator assignment) i j = PyStr (String c "") ->
          String.get (i * (width (crossword creator) + 1) + j) text = Some c).
Proof.
  intros Hwf Hi Hj.
  eexists. split; [now apply format_assignment_lines|].
  unfold well_formed in Hwf. rewrite !andb_true_iff in Hwf.
  destruct Hwf as [_ Hchars].
  rewrite get_grid_text by assumption.
  unfold cell_text.
  split; [|split].
  - now intros ->.
  - now intros -> ->.
  - now intros c -> ->.
Qed.

(** C9. The blocking character is ['#'] (code 35) and the placeholder of an
    open cell whose letter is [None] or false in Python's sense (the empty
    string) is one space (code 32). *)
Theorem blocking_and_blank_characters (creator : CrosswordCreator)
    (assignment : Assignment) (i j : nat) :
  well_formed (crossword creator) (letter_grid a creator assignment) = true ->
  i < height (crossword creator) ->
  j < width (crossword creator) ->
  exists text,
    _format_assignment a creator assignment = inr text
    /\ (is_open (crossword creator) i j = false ->
          String.get (i * (width (crossword creator) + 1) + j) text
          = Some (ascii_of_nat 35))
    /\ (is_open (crossword creator) i j = true ->
          truthy (letter_at (letter_grid a creator assignment) i j) = false ->
          String.get (i * (width (crossword creator) + 1) + j) text
          = Some (ascii_of_nat 32)).
Proof.
  intros Hwf Hi Hj.
  eexists. split; [now apply format_assignment_lines|].
  unfold well_formed in Hwf. rewrite !andb_true_iff in Hwf.
  destruct Hwf as [_ Hchars].
  rewrite get_grid_text by assumption.
  unfold cell_text.
  split.
  - now intros ->.
  - intros -> Hfalsy.
    destruct (letter_at (letter_grid a creator assignment) i j) as [|[|c s]];
      [reflexivity | reflexivity | discriminate].
Qed.

End Formatter.

(** * Properties of the worker *)

Section Worker.

Variable Assignment : Type.
Variable a : Adapter Assignment.

(** The callbacks the worker schedules on each of its paths. *)

Lemma worker_error_path (app : App) (exc : PyException) :
  construct_and_solve a app = inl exc ->
  _solve_in_thread a app
  = ([showerror ("Error while solving: " ++ exc_str exc)%string;
      status_set "Error"; button_normal], inr tt).
Proof.
  intros E. unfold _solve_in_thread. rewrite E. reflexivity.
Qed.

Lemma worker_no_solution_path (app : App) (creator : CrosswordCreator) :
  construct_and_solve a app = inr (creator, None) ->
  _solve_in_thread a app
  = ([status_set "No solution found"; showinfo NO_SOLUTION_MESSAGE;
      write_output ""; button_normal], inr tt).
Proof.
  intros E. unfold _solve_in_thread. rewrite E. reflexivity.
Qed.

Lemma worker_solved_path (app : App) (creator : CrosswordCreator)
    (assignment : Assignment) (grid_text : string) :
  construct_and_solve a app = inr (creator, Some assignment) ->
  _format_assignment a creator assignment = inr grid_text ->
  _solve_in_thread a app
  = (write_output grid_text :: status_set "Solved"
       :: export_notice a app creator assignment ++ [button_normal], inr tt).
Proof.
  intros E F. unfold _solve_in_thread, export_notice. rewrite E, F.
  destruct (nonempty (output_path app)); [|reflexivity].
  destruct (save a creator assignment (output_path app)) as [[[|] msg]|[]];
    reflexivity.
Qed.

Lemma worker_format_raises (app : App) (creator : CrosswordCreator)
    (assignment : Assignment) (exc : PyException) :
  construct_and_solve a app = inr (creator, Some assignment) ->
  _format_assignment a creator assignment = inl exc ->
  _solve_in_thread a app = ([], inl exc).
Proof.
  intros E F. unfold _solve_in_thread. rewrite E, F. reflexivity.
Qed.

Lemma export_notice_quiet (app : App) creator assignment :
  Forall (fun cb => quiet cb = true) (export_notice a app creator assignment).
Proof.
  unfold export_notice.
  destruct (nonempty (output_path app)); [|constructor].
  destruct (save a creator assignment (output_path app)) as [exc|[]].
  - destruct (isinstance_ImportError exc); repeat constructor.
  - repeat constructor.
Qed.

Lemma closing_app (l : list Callback) :
  Forall (fun cb => quiet cb = true) l -> closing (l ++ [button_normal]).
Proof.
  induction 1; simpl; [constructor | now constructor].
Qed.



(** Every run of the worker schedules nothing and ends with an exception,
    or returns after publishing. *)
Lemma worker_script (app : App) :
  (exists exc, _solve_in_thread a app = ([], inl exc))
  \/ (exists posts, _solve_in_thread a app = (posts, inr tt) /\ publishing posts).
Proof.
  destruct (construct_and_solve a app) as [exc | [creator [assignment|]]] eqn:E.
  - right. eexists. split; [exact (worker_error_path app exc E)|].
    apply publishing_quiet; [reflexivity|].
    apply publishing_status; [reflexivity | constructor].
  - destruct (_format_assignment a creator assignment) as [exc | grid_text] eqn:F.
    + left. exists exc. exact (worker_format_raises app creator assignment exc E F).
    + right. eexists. split; [exact (worker_solved_path app creator assignment _ E F)|].
      apply publishing_quiet; [reflexivity|].
      apply publishing_status; [reflexivity|].
      apply closing_app, export_notice_quiet.
  - right. eexists. split; [exact (worker_no_solution_path app creator E)|].
    apply publishing_status; [reflexivity|].
    repeat (apply closing_quiet; [reflexivity|]). constructor.
Qed.


Lemma write_output_content (text : string) (app : App) :
  output (_write_output text app)
  = {| text_state := DISABLED; text_content := text |}.
Proof. reflexivity. Qed.

(** C3. When the solver returns an assignment and an output path is set,
    a failure of [save] leaves the status [Solved] and the rendered grid as
    they were published: the worker only adds one error notification, and
    the message for a missing image library ([ImportError]) differs from
    every generic could-not-save message. *)
Theorem save_failure_keeps_solution (app app0 : App) (creator : CrosswordCreator)
    (assignment : Assignment) (exc : PyException) :
  construct_and_solve a app = inr (creator, Some assignment) ->
  well_formed (crossword creator) (letter_grid a creator assignment) = true ->
  nonempty (output_path app) = true ->
  save a creator assignment (output_path app) = inl exc ->
  let grid_text :=
    join NL (grid_lines (crossword creator) (letter_grid a creator assignment)) in
  let message :=
    if isinstance_ImportError exc then PILLOW_MESSAGE
    else ("Could not save image: " ++ exc_str exc)%string in
  let published := run_all [write_output grid_text; status_set "Solved"] app0 in
  let final := run_all [showerror message; button_normal] published in
  _solve_in_thread a app
  = ([write_output grid_text; status_set "Solved";
      showerror message; button_normal], inr tt)
  /\ status_var published = "Solved"
  /\ text_content (output published) = grid_text
  /\ status_var final = status_var published
  /\ output final = output published
  /\ dialogs final
     = dialogs app0 ++ [ErrorDialog "Crossword Solver" message]
  /\ solve_button final = NORMAL
  /\ (forall cause, PILLOW_MESSAGE <> ("Could not save image: " ++ cause)%string).
Proof.
  intros E Hwf Hpath Hsave grid_text message published final.
  split.
  - rewrite (worker_solved_path app creator assignment grid_text E
               (format_assignment_lines _ a creator assignment Hwf)).
    unfold export_notice. rewrite Hpath, Hsave.
    subst message. destruct (isinstance_ImportError exc); reflexivity.
  - repeat split; try reflexivity.
    intros cause H. discriminate H.
Qed.

(** C6. When [solve] returns no assignment, the worker publishes the
    status [No solution found], shows one information dialog (not an error
    dialog), empties the output and enables the button. *)
Theorem no_solution_clears_output (app app0 : App) (creator : CrosswordCreator) :
  construct_and_solve a app = inr (creator, None) ->
  let posts := fst (_solve_in_thread a app) in
  let final := run_all posts app0 in
  _solve_in_thread a app
  = ([status_set "No solution found"; showinfo NO_SOLUTION_MESSAGE;
      write_output ""; button_normal], inr tt)
  /\ status_var final = "No solution found"
  /\ terminal (status_var final) = true
  /\ text_content (output final) = ""
  /\ dialogs final
     = dialogs app0 ++ [InfoDialog "Crossword Solver" NO_SOLUTION_MESSAGE]
  /\ solve_button final = NORMAL.
Proof.
  intros E posts final. subst final posts.
  rewrite (worker_no_solution_path app creator E).
  repeat split; reflexivity.
Qed.

(** C10. When the construction of the model or the solver raises, the
    worker publishes the status [Error], one error dialog and the enabling
    of the button, and the output widget keeps what it showed; when the
    solver returns no assignment (here for a second adapter), the output is
    emptied. *)
Theorem error_keeps_output_no_solution_clears (a' : Adapter Assignment)
    (app app0 : App) (exc : PyException) (creator : CrosswordCreator) :
  construct_and_solve a app = inl exc ->
  construct_and_solve a' app = inr (creator, None) ->
  let on_error := run_all (fst (_solve_in_thread a app)) app0 in
  let on_no_solution := run_all (fst (_solve_in_thread a' app)) app0 in
  fst (_solve_in_thread a app)
  = [showerror ("Error while solving: " ++ exc_str exc)%string;
     status_set "Error"; button_normal]
  /\ output on_error = output app0
  /\ status_var on_error = "Error"
  /\ dialogs on_error
     = dialogs app0
       ++ [ErrorDialog "Crossword Solver"
             ("Error while solving: " ++ exc_str exc)%string]
  /\ solve_button on_error = NORMAL
  /\ text_content (output on_no_solution) = "".
Proof.
  intros E E' on_error on_no_solution. subst on_error on_no_solution.
  rewrite (worker_error_path app exc E).
  unfold _solve_in_thread at 1. rewrite E'.
  repeat split; reflexivity.
Qed.

End Worker.

(** * Properties of the running application *)

Section Session.

Variable Assignment : Type.

Lemma at_rest_not_solving (status : string) :
  at_rest status = true -> status <> "Solving...".
Proof.
  intros H ->. discriminate H.
Qed.

Lemma terminal_at_rest (status : string) :
  terminal status = true -> at_rest status = true.
Proof.
  unfold at_rest. intros ->. apply orb_true_r.
Qed.

Lemma no_posts_concat (ts : list Thread) :
  filter has_posts ts = [] <-> List.concat (map to_post ts) = [].
Proof.
  induction ts as [|[[|cb rest] exc] ts IH]; simpl.
  - tauto.
  - exact IH.
  - split; discriminate.
Qed.

Lemma filter_at_most_one (ts1 ts2 : list Thread) (t : Thread) :
  has_posts t = true ->
  List.length (filter has_posts (ts1 ++ t :: ts2)) <= 1 ->
  filter has_posts ts1 = [] /\ filter has_posts ts2 = [].
Proof.
  intros Ht. rewrite filter_app. simpl. rewrite Ht, length_app. simpl.
  intros Hlen.
  destruct (filter has_posts ts1), (filter has_posts ts2); simpl in *;
    try lia; auto.
Qed.

Lemma run_callback_frame (cb : Callback) (app : App) :
  after_queue (run_callback cb app) = after_queue app
  /\ threads (run_callback cb app) = threads app
  /\ structure_path (run_callback cb app) = structure_path app
  /\ words_path (run_callback cb app) = words_path app
  /\ output_path (run_callback cb app) = output_path app.
Proof.
  destruct cb; repeat split; reflexivity.
Qed.

Lemma quiet_frame (cb : Callback) (app : App) :
  quiet cb = true ->
  status_var (run_callback cb app) = status_var app
  /\ solve_button (run_callback cb app) = solve_button app.
Proof.
  destruct cb; simpl; intros H; try discriminate; split; reflexivity.
Qed.

Lemma thread_new_script (a : Adapter Assignment) (app : App) :
  script (to_post (Thread_new a app)).
Proof.
  unfold Thread_new. simpl.
  destruct (worker_script _ a app) as [[exc ->] | (posts & -> & Hp)];
    [now left | now right].
Qed.

Lemma inv_init : Inv CrosswordApp_init.
Proof.
  split; [simpl; lia | now constructor].
Qed.

Lemma phase_normal_inv (status : string) (p : list Callback) :
  Phase NORMAL status p -> p = [] /\ at_rest status = true.
Proof.
  inversion 1; subst; auto.
Qed.

Lemma phase_disabled_inv (status : string) (cb : Callback) (p : list Callback) :
  Phase DISABLED status (cb :: p) ->
  (cb = status_set "Solving..." /\ at_rest status = true /\ script p)
  \/ (status = "Solving..." /\ exists t,
        cb = status_set t /\ terminal t = true /\ closing p)
  \/ (status = "Solving..." /\ quiet cb = true /\ publishing p)
  \/ (terminal status = true /\ cb = button_normal /\ p = [])
  \/ (terminal status = true /\ quiet cb = true /\ closing p).
Proof.
  inversion 1 as [ | ? ? ? ? | ? Hw | ? ? ? Hl]; subst.
  - left. auto.
  - destruct Hw as [Hw | Hw]; [discriminate|].
    inversion Hw; subst.
    + right. left. split; [reflexivity|]. eexists. auto.
    + right. right. left. auto.
  - inversion Hl; subst.
    + right. right. right. left. auto.
    + right. right. right. right. auto.
Qed.

Lemma inv_step (app app' : App) (l : Label) :
  Inv app -> step Assignment app l app' -> Inv app'.
Proof.
  intros [Hone Hph] Hstep.
  destruct Hstep as [a app Hbtn | sp wp op app | cb q app Hq
                    | ts1 cb rest exc ts2 app Hts].
  - (* a click: the button is enabled, so nothing is pending *)
    rewrite Hbtn in Hph. apply phase_normal_inv in Hph.
    destruct Hph as [Hp Hrest].
    apply app_eq_nil in Hp. destruct Hp as [Hq Hc].
    pose proof (proj2 (no_posts_concat _) Hc) as Hf.
    split.
    + simpl. rewrite filter_app, length_app, Hf. simpl.
      destruct (has_posts _); simpl; lia.
    + unfold pending. simpl.
      rewrite map_app, concat_app, Hq, Hc. simpl. rewrite app_nil_r.
      apply phase_starting; [exact Hrest | apply thread_new_script].
  - (* an edit of the entries *)
    split; assumption.
  - (* the event loop runs the oldest callback *)
    destruct (run_callback_frame cb (set_after_queue q app)) as (Hq' & Hts' & _).
    split; [rewrite Hts'; exact Hone|].
    unfold pending in *. rewrite Hq', Hts'. rewrite Hq in Hph. simpl in *.
    set (p := q ++ List.concat (map to_post (threads app))) in *.
    destruct (solve_button app) eqn:Hbtn.
    { apply phase_normal_inv in Hph. destruct Hph as [Hp _]. discriminate Hp. }
    apply phase_disabled_inv in Hph.
    destruct Hph as [(-> & Hrest & Hw)
                    | [(Hs & t & -> & Ht & Hl)
                    | [(Hs & Hcb & Hw)
                    | [(Ht & -> & Hp)
                    | (Ht & Hcb & Hl)]]]].
    + simpl. rewrite Hbtn. now apply phase_solving.
    + simpl. rewrite Hbtn. now apply phase_closing.
    + destruct (quiet_frame cb (set_after_queue q app) Hcb) as [-> ->].
      simpl. rewrite Hbtn, Hs. apply phase_solving. now right.
    + simpl. rewrite Hp. apply phase_rest. now apply terminal_at_rest.
    + destruct (quiet_frame cb (set_after_queue q app) Hcb) as [-> ->].
      simpl. rewrite Hbtn. now apply phase_closing.
  - (* a worker schedules its next callback *)
    rewrite Hts in Hone.
    destruct (filter_at_most_one ts1 ts2 (mkThread (cb :: rest) exc) eq_refl Hone)
      as [H1 H2].
    split.
    + simpl. rewrite filter_app, H1. simpl. rewrite H2.
      destruct (has_posts _); simpl; lia.
    + unfold pending in *. simpl. rewrite Hts in Hph.
      rewrite map_app, concat_app in *. simpl in *.
      apply no_posts_concat in H1, H2. rewrite H1, H2 in *. simpl in *.
      rewrite app_nil_r in *. rewrite <- app_assoc. exact Hph.
Qed.

Lemma inv_exec (app app' : App) (tr : list Label) :
  exec Assignment app tr app' -> Inv app -> Inv app'.
Proof.
  induction 1 as [|app l app1 tr app2 Hstep _ IH]; [trivial|].
  intros Hinv. apply IH. exact (inv_step _ _ _ Hinv Hstep).
Qed.

Lemma reachable_inv (app : App) : reachable Assignment app -> Inv app.
Proof.
  intros [tr Hexec]. exact (inv_exec _ _ _ Hexec inv_init).
Qed.

Lemma step_status (app app' : App) (l : Label) :
  Inv app -> step Assignment app l app' ->
  status_var app' = status_var app
  \/ (at_rest (status_var app) = true /\ status_var app' = "Solving...")
  \/ (status_var app = "Solving..." /\ terminal (status_var app') = true).
Proof.
  intros [_ Hph] Hstep.
  destruct Hstep as [a app Hbtn | sp wp op app | cb q app Hq
                    | ts1 cb rest exc ts2 app Hts];
    try (left; reflexivity).
  unfold pending in Hph. rewrite Hq in Hph. simpl in Hph.
  destruct (solve_button app) eqn:Hbtn.
  { apply phase_normal_inv in Hph. destruct Hph as [Hp _]. discriminate Hp. }
  apply phase_disabled_inv in Hph.
  destruct Hph as [(-> & Hrest & _)
                  | [(Hs & t & -> & Ht & _)
                  | [(_ & Hcb & _)
                  | [(_ & -> & _)
                  | (_ & Hcb & _)]]]].
  - right. left. split; [exact Hrest | reflexivity].
  - right. right. split; [exact Hs | exact Ht].
  - left. now destruct (quiet_frame cb (set_after_queue q app) Hcb).
  - left. reflexivity.
  - left. now destruct (quiet_frame cb (set_after_queue q app) Hcb).
Qed.

Lemma step_queue (app app' : App) (l : Label) :
  step Assignment app l app' ->
  after_queue app ++ posted [l] = applied [l] ++ after_queue app'.
Proof.
  intros Hstep.
  destruct Hstep as [a app Hbtn | sp wp op app | cb q app Hq
                    | ts1 cb rest exc ts2 app Hts]; simpl.
  - reflexivity.
  - now rewrite app_nil_r.
  - destruct (run_callback_frame cb (set_after_queue q app)) as (-> & _).
    simpl. now rewrite app_nil_r.
  - reflexivity.
Qed.

(** C1. The guard against a second solve is the disabled button and
    nothing else.  At every point the application reaches with the status
    [Solving...], the button is disabled and a click on it changes nothing;
    [_solve] itself has no guard: called in any state it schedules the
    status [Solving...], disables the button and starts one more thread. *)
Theorem solve_guard_is_the_button (a : Adapter Assignment) (app : App) :
  reachable Assignment app ->
  status_var app = "Solving..." ->
  solve_button app = DISABLED
  /\ click a app = app
  /\ (forall app1,
        List.length (threads (_solve a app1)) = S (List.length (threads app1))
        /\ after_queue (_solve a app1)
           = after_queue app1 ++ [status_set "Solving..."]
        /\ solve_button (_solve a app1) = DISABLED
        /\ status_var (_solve a app1) = status_var app1).
Proof.
  intros Hreach Hs.
  destruct (reachable_inv _ Hreach) as [_ Hph].
  assert (Hbtn : solve_button app = DISABLED).
  { destruct (solve_button app); [|reflexivity].
    apply phase_normal_inv in Hph. destruct Hph as [_ Hrest].
    now apply at_rest_not_solving in Hrest. }
  split; [exact Hbtn|]. split.
  - unfold click. now rewrite Hbtn.
  - intros app1. simpl. rewrite length_app. simpl.
    repeat split; try reflexivity. lia.
Qed.

(** C7. The session's state machine, as the running application has it.
    The application starts in [Idle].  At every point it reaches, the
    status is [Idle], [Solving...] or one of the three terminal texts; an
    enabled button means that no callback is pending and the status is not
    [Solving...]; and once no callback is pending, the button is enabled if
    and only if the status is not [Solving...].  A step changes the status
    only from [Idle] or a terminal text to [Solving...], or from
    [Solving...] to a terminal text. *)
Theorem session_state_machine (app app' : App) (l : Label) :
  reachable Assignment app ->
  step Assignment app l app' ->
  status_var CrosswordApp_init = "Idle"
  /\ (at_rest (status_var app) = true \/ status_var app = "Solving...")
  /\ (solve_button app = NORMAL ->
        pending app = [] /\ status_var app <> "Solving...")
  /\ (pending app = [] ->
        (solve_button app = NORMAL <-> status_var app <> "Solving..."))
  /\ (status_var app' = status_var app
      \/ (at_rest (status_var app) = true /\ status_var app' = "Solving...")
      \/ (status_var app = "Solving..." /\ terminal (status_var app') = true)).
Proof.
  intros Hreach Hstep.
  pose proof (reachable_inv _ Hreach) as Hinv.
  pose proof (step_status _ _ _ Hinv Hstep) as Hstatus.
  destruct Hinv as [_ Hph].
  split; [reflexivity|].
  split; [|split; [|split; [|exact Hstatus]]].
  - inversion Hph; subst; auto using terminal_at_rest.
  - intros Hbtn. rewrite Hbtn in Hph. apply phase_normal_inv in Hph.
    destruct Hph as [Hp Hrest]. split; [exact Hp|].
    now apply at_rest_not_solving.
  - intros Hp. rewrite Hp in Hph.
    destruct (solve_button app) eqn:Hbtn.
    + apply phase_normal_inv in Hph. destruct Hph as [_ Hrest].
      split; [intros _; now apply at_rest_not_solving | reflexivity].
    + inversion Hph as [ | | ? Hw | ? ? ? Hl]; subst.
      * split; [discriminate | congruence].
      * inversion Hl.
Qed.

(** The two functional moves are steps of the application. *)
Lemma step_run_next (app : App) (cb : Callback) (q : list Callback) :
  after_queue app = cb :: q -> step Assignment app (Run cb) (run_next app).
Proof.
  intros Hq. unfold run_next. rewrite Hq. now apply step_run.
Qed.

Lemma step_post_next (app : App) (cb : Callback) (rest : list Callback)
    (exc : option PyException) (ts : list Thread) :
  threads app = {| to_post := cb :: rest; uncaught := exc |} :: ts ->
  step Assignment app (Post cb) (post_next app).
Proof.
  intros Hts. unfold post_next. rewrite Hts.
  now apply (step_post Assignment [] cb rest exc ts).
Qed.

End Session.

(** * The theorems on the example collaborators *)

Example format_example :
  _format_assignment adapter_solved example_creator example_letters
  = inr example_text.
Proof. reflexivity. Qed.

Example format_partial_example :
  _format_assignment adapter_partial example_creator example_partial
  = inr ("C  " ++ NL ++ "#T#")%string.
Proof. reflexivity. Qed.

(** Outside the adapter's contract: a letter grid smaller than the puzzle
    makes the formatter raise [IndexError], which no handler of the worker
    catches; the worker ends without scheduling anything. *)
Example format_short_grid_raises :
  _format_assignment adapter_short_grid example_creator [[PyStr "C"]]
  = inl IndexError
  /\ _solve_in_thread adapter_short_grid CrosswordApp_init = ([], inl IndexError).
Proof. split; reflexivity. Qed.

Example worker_solved_example :
  _solve_in_thread adapter_solved app_with_output
  = ([write_output example_text; status_set "Solved";
      showinfo "Image saved to out.png"; button_normal], inr tt).
Proof. reflexivity. Qed.

Example worker_missing_file_example :
  _solve_in_thread adapter_missing_file CrosswordApp_init
  = ([showerror
        "Error while solving: [Errno 2] No such file or directory: 'data/structure0.txt'";
      status_set "Error"; button_normal], inr tt).
Proof. reflexivity. Qed.

Lemma exec_app_solving :
  exec (list (list PyLetter)) CrosswordApp_init
    [Click; Run (status_set "Solving...")] app_solving.
Proof.
  apply (exec_cons _ _ _ app_clicked);
    [apply (step_click _ adapter_solved); reflexivity|].
  apply (exec_cons _ _ _ app_solving);
    [apply (step_run_next _ _ _ []); vm_compute; reflexivity|].
  apply exec_nil.
Qed.

Lemma exec_app_posted :
  exec (list (list PyLetter)) app_solving
    [Post (write_output example_text)] app_posted.
Proof.
  apply (exec_cons _ _ _ app_posted);
    [apply (step_post_next _ _ _ [status_set "Solved"; button_normal] None []);
     vm_compute; reflexivity|].
  apply exec_nil.
Qed.

Lemma exec_app_published :
  exec (list (list PyLetter)) app_posted
    [Post (status_set "Solved"); Run (write_output example_text);
     Run (status_set "Solved")]
    app_published.
Proof.
  apply (exec_cons _ _ _ (post_next app_posted));
    [apply (step_post_next _ _ _ [button_normal] None []);
     vm_compute; reflexivity|].
  apply (exec_cons _ _ _ (run_next (post_next app_posted)));
    [apply (step_run_next _ _ _ [status_set "Solved"]); vm_compute; reflexivity|].
  apply (exec_cons _ _ _ app_published);
    [apply (step_run_next _ _ _ []); vm_compute; reflexivity|].
  apply exec_nil.
Qed.

Lemma exec_app_clicked_again :
  exec (list (list PyLetter)) app_published
    [Post button_normal; Run button_normal; Click] app_clicked_again.
Proof.
  apply (exec_cons _ _ _ (post_next app_published));
    [apply (step_post_next _ _ _ [] None []); vm_compute; reflexivity|].
  apply (exec_cons _ _ _ app_done);
    [apply (step_run_next _ _ _ []); vm_compute; reflexivity|].
  apply (exec_cons _ _ _ app_clicked_again);
    [apply (step_click _ adapter_solved); vm_compute; reflexivity|].
  apply exec_nil.
Qed.

Lemma exec_app (Assignment : Type) (app1 app2 app3 : App) (tr1 tr2 : list Label) :
  exec Assignment app1 tr1 app2 -> exec Assignment app2 tr2 app3 ->
  exec Assignment app1 (tr1 ++ tr2) app3.
Proof.
  induction 1 as [|app l app' tr app'' Hstep _ IH]; intros H2; simpl;
    [exact H2 | exact (exec_cons _ _ _ _ _ _ Hstep (IH H2))].
Qed.

Lemma reachable_app_solving : reachable (list (list PyLetter)) app_solving.
Proof.
  eexists. exact exec_app_solving.
Qed.

Lemma reachable_app_published : reachable (list (list PyLetter)) app_published.
Proof.
  eexists.
  exact (exec_app _ _ _ _ _ _ exec_app_solving
           (exec_app _ _ _ _ _ _ exec_app_posted exec_app_published)).
Qed.

Lemma reachable_app_clicked_again :
  reachable (list (list PyLetter)) app_clicked_again.
Proof.
  destruct reachable_app_published as [tr Hexec].
  eexists. exact (exec_app _ _ _ _ _ _ Hexec exec_app_clicked_again).
Qed.

(** C1, on the code: a second call of [_solve] while the status is
    [Solving...] is not without effect.  After a click and the status
    update, one thread is running; calling [_solve] again starts a second
    one and changes the application. *)
Lemma solve_while_solving_starts_second_worker :
  reachable (list (list PyLetter)) app_solving
  /\ status_var app_solving = "Solving..."
  /\ List.length (threads app_solving) = 1
  /\ List.length (threads (_solve adapter_solved app_solving)) = 2
  /\ _solve adapter_solved app_solving <> app_solving.
Proof.
  split; [exact reachable_app_solving|].
  repeat split; try (vm_compute; reflexivity).
  intros H.
  apply (f_equal (fun app => List.length (threads app))) in H.
  vm_compute in H. discriminate H.
Qed.

(** Once the status [Solving...] is shown, a click changes nothing. *)
Lemma solve_guard_is_the_button_witness :
  click adapter_solved app_solving = app_solving.
Proof.
  exact (proj1 (proj2
    (solve_guard_is_the_button _ adapter_solved app_solving
       reachable_app_solving eq_refl))).
Defined.


(** The callbacks of that run: the grid, [Solved], the error dialog, the
    button. *)
Lemma save_failure_keeps_solution_witness :
  _solve_in_thread adapter_no_pillow app_with_output
  = ([write_output example_text; status_set "Solved";
      showerror PILLOW_MESSAGE; button_normal], inr tt).
Proof.
  exact (proj1
    (save_failure_keeps_solution _ adapter_no_pillow app_with_output
       CrosswordApp_init example_creator example_letters ModuleNotFoundError
       eq_refl eq_refl eq_refl eq_refl)).
Defined.

(** The example's solution prints as two lines of three characters. *)
Lemma format_assignment_shape_witness :
  exists lines,
    _format_assignment adapter_solved example_creator example_letters
    = inr (join NL lines)
    /\ List.length lines = 2
    /\ Forall (fun l => String.length l = 3) lines
    /\ (forall i, i < 2 ->
          nth i lines "" = row_text example_crossword example_letters i)
    /\ String.length (join NL lines) = 2 * (3 + 1) - 1.
Proof.
  exact (format_assignment_shape _ adapter_solved example_creator
           example_letters eq_refl).
Defined.

(** Cell (0, 1) of the partly filled example is open and has no letter. *)
Lemma format_assignment_cell_witness :
  exists text,
    _format_assignment adapter_partial example_creator example_partial = inr text
    /\ (is_open example_crossword 0 1 = false ->
          String.get 1 text = Some "#"%char)
    /\ (is_open example_crossword 0 1 = true ->
          letter_at example_partial 0 1 = PyNone ->
          String.get 1 text = Some " "%char)
    /\ (forall c,
          is_open example_crossword 0 1 = true ->
          letter_at example_partial 0 1 = PyStr (String c "") ->
          String.get 1 text = Some c).
Proof.
  apply (format_assignment_cell _ adapter_partial example_creator
           example_partial 0 1 eq_refl); simpl; lia.
Defined.

(** Cell (0, 2) of the partly filled example is open and holds the empty
    string. *)
Lemma blocking_and_blank_characters_witness :
  exists text,
    _format_assignment adapter_partial example_creator example_partial = inr text
    /\ (is_open example_crossword 0 2 = false ->
          String.get 2 text = Some (ascii_of_nat 35))
    /\ (is_open example_crossword 0 2 = true ->
          truthy (letter_at example_partial 0 2) = false ->
          String.get 2 text = Some (ascii_of_nat 32)).
Proof.
  apply (blocking_and_blank_characters _ adapter_partial example_creator
           example_partial 0 2 eq_refl); simpl; lia.
Defined.

(** A solve without solution, started while the example's grid is shown. *)
Lemma no_solution_clears_output_witness :
  let final :=
    run_all (fst (_solve_in_thread adapter_no_solution CrosswordApp_init))
      app_showing_grid in
  text_content (output app_showing_grid) = example_text
  /\ text_content (output final) = ""
  /\ status_var final = "No solution found"
  /\ solve_button final = NORMAL.
Proof.
  destruct (no_solution_clears_output _ adapter_no_solution CrosswordApp_init
              app_showing_grid example_creator eq_refl)
    as (_ & Hstatus & _ & Houtput & _ & Hbutton).
  intros final. subst final.
  split; [reflexivity|]. split; [exact Houtput|].
  split; [exact Hstatus | exact Hbutton].
Defined.

(** C7, on the code: the button is not enabled at every point where the
    status is not [Solving...].  Once the event loop has run the worker's
    status update [Solved], and the worker has not yet scheduled the
    enabling of the button, the status is [Solved] and the button is
    disabled.  And [Idle] is not the only status a solve starts from: after
    a second click the status goes from [Solved] to [Solving...]. *)
Lemma button_disabled_while_solved_is_shown :
  (reachable (list (list PyLetter)) app_published
   /\ status_var app_published = "Solved"
   /\ solve_button app_published = DISABLED
   /\ ~ (solve_button app_published = NORMAL
         <-> status_var app_published <> "Solving..."))
  /\ (reachable (list (list PyLetter)) app_clicked_again
      /\ step (list (list PyLetter)) app_clicked_again
           (Run (status_set "Solving...")) (run_next app_clicked_again)
      /\ status_var app_clicked_again = "Solved"
      /\ status_var (run_next app_clicked_again) = "Solving...").
Proof.
  split.
  - split; [exact reachable_app_published|].
    split; [vm_compute; reflexivity|].
    split; [vm_compute; reflexivity|].
    intros [_ H].
    assert (Hbtn : solve_button app_published = NORMAL).
    { apply H. vm_compute. discriminate. }
    vm_compute in Hbtn. discriminate Hbtn.
  - split; [exact reachable_app_clicked_again|].
    split; [apply (step_run_next _ _ _ []); vm_compute; reflexivity|].
    split; vm_compute; reflexivity.
Qed.

(** The first click: the status is still the initial one right after it. *)
Lemma session_state_machine_witness :
  status_var app_clicked = status_var CrosswordApp_init
  \/ (at_rest (status_var CrosswordApp_init) = true
      /\ status_var app_clicked = "Solving...")
  \/ (status_var CrosswordApp_init = "Solving..."
      /\ terminal (status_var app_clicked) = true).
Proof.
  apply (session_state_machine (list (list PyLetter)) CrosswordApp_init
           app_clicked Click).
  - exists []. apply exec_nil.
  - apply (step_click _ adapter_solved). reflexivity.
Defined.

(** A missing structure file leaves the shown grid in place; a solve
    without solution removes it. *)
Lemma error_keeps_output_no_solution_clears_witness :
  let on_error :=
    run_all (fst (_solve_in_thread adapter_missing_file CrosswordApp_init))
      app_showing_grid in
  let on_no_solution :=
    run_all (fst (_solve_in_thread adapter_no_solution CrosswordApp_init))
      app_showing_grid in
  text_content (output on_error) = example_text
  /\ status_var on_error = "Error"
  /\ text_content (output on_no_solution) = "".
Proof.
  destruct (error_keeps_output_no_solution_clears _ adapter_missing_file
              adapter_no_solution CrosswordApp_init app_showing_grid
              (FileNotFoundError DEFAULT_STRUCTURE) example_creator
              eq_refl eq_refl)
    as (_ & Houtput & Hstatus & _ & _ & Hclear).
  intros on_error on_no_solution. subst on_error on_no_solution.
  split; [rewrite Houtput; reflexivity|].
  split; [exact Hstatus | exact Hclear].
Defined.

(** * Further properties of the formatter *)

Section FormatterEdges.

Variable Assignment : Type.

Lemma for_in_ext {S} (body1 body2 : nat -> S -> Py S) :
  forall xs s,
    (forall x s', In x xs -> body1 x s' = body2 x s') ->
    for_in xs body1 s = for_in xs body2 s.
Proof.
  induction xs as [|x xs IH]; intros s Hext; simpl; [reflexivity|].
  rewrite (Hext x s (or_introl eq_refl)).
  destruct (body2 x s) as [exc | s']; simpl; [reflexivity|].
  apply IH. intros y s'' Hy. apply Hext. now right.
Qed.

Lemma for_in_raises {S} (P : PyException -> Prop) (body : nat -> S -> Py S) :
  forall xs s exc,
    (forall x s' exc', In x xs -> body x s' = inl exc' -> P exc') ->
    for_in xs body s = inl exc -> P exc.
Proof.
  induction xs as [|x xs IH]; intros s exc Hbody; simpl; [discriminate|].
  destruct (body x s) as [exc' | s'] eqn:E; simpl.
  - intros [= <-]. exact (Hbody x s exc' (or_introl eq_refl) E).
  - apply IH. intros y s'' exc'' Hy. apply Hbody. now right.
Qed.

Lemma getitem_raises {A} (l : list A) (i : nat) (exc : PyException) :
  getitem l i = inl exc -> exc = IndexError.
Proof.
  unfold getitem. destruct (nth_error l i); [discriminate | now intros [= <-]].
Qed.

Lemma bind_getitem2 {A B} (g : list (list A)) (i j : nat) (k : A -> Py B) :
  (row <- getitem g i ;; x <- getitem row j ;; k x)
  = (x <- getitem2 g i j ;; k x).
Proof.
  unfold getitem2. destruct (getitem g i); reflexivity.
Qed.

(** The formatter on grids that hold at least [height] by [width] entries,
    whatever the entries are. *)
Lemma format_assignment_covered (a : Adapter Assignment)
    (creator : CrosswordCreator) (assignment : Assignment) :
  covers (height (crossword creator)) (width (crossword creator))
    (structure (crossword creator)) = true ->
  covers (height (crossword creator)) (width (crossword creator))
    (letter_grid a creator assignment) = true ->
  _format_assignment a creator assignment
  = inr (join NL (grid_lines (crossword creator) (letter_grid a creator assignment))).
Proof.
  intros Hs Hl. unfold _format_assignment.
  set (cw := crossword creator) in *.
  set (letters := letter_grid a creator assignment) in *.
  rewrite (for_in_appends (row_text cw letters)); [reflexivity|].
  intros i lines Hi. unfold range in Hi. apply in_seq in Hi.
  rewrite (for_in_appends (cell_text cw letters i)); [reflexivity|].
  intros j row_chars Hj. unfold range in Hj. apply in_seq in Hj.
  destruct (covers_getitem _ _ _ false i j Hs) as (srow & Hg1 & Hsrow & Hg2);
    try lia.
  destruct (covers_getitem _ _ _ PyNone i j Hl) as (lrow & Hg3 & Hlrow & Hg4);
    try lia.
  unfold cell_text, is_open, letter_at. rewrite Hsrow, Hlrow.
  rewrite Hg1. simpl. rewrite Hg2. simpl.
  destruct (nth j srow false); [|reflexivity].
  rewrite Hg3. simpl. rewrite Hg4. reflexivity.
Qed.

(** X1. The only exception the formatter raises is [IndexError], and it
    raises it only when the structure or the letter grid has fewer than
    [height] rows or a row of fewer than [width] entries. *)
Theorem format_raises_only_IndexError (a : Adapter Assignment)
    (creator : CrosswordCreator) (assignment : Assignment) (exc : PyException) :
  _format_assignment a creator assignment = inl exc ->
  exc = IndexError
  /\ (covers (height (crossword creator)) (width (crossword creator))
        (structure (crossword creator)) = false
      \/ covers (height (crossword creator)) (width (crossword creator))
           (letter_grid a creator assignment) = false).
Proof.
  intros Hraise. split.
  - unfold _format_assignment in Hraise.
    destruct (for_in (range (height (crossword creator))) _ []) as [exc' | lines]
      eqn:Houter; [|discriminate].
    injection Hraise as <-.
    revert Houter. apply (for_in_raises (fun e => e = IndexError)). clear.
    intros i lines exc _ Hrow.
    destruct (for_in (range (width (crossword creator))) _ []) as [exc' | row]
      eqn:Hinner; [|discriminate].
    injection Hrow as <-.
    revert Hinner. apply (for_in_raises (fun e => e = IndexError)). clear.
    intros j row_chars exc _ Hcell.
    destruct (getitem (structure (crossword creator)) i) as [e1 | srow] eqn:E1.
    { injection Hcell as <-. exact (getitem_raises _ _ _ E1). }
    simpl in Hcell.
    destruct (getitem srow j) as [e2 | [|]] eqn:E2; simpl in Hcell.
    { injection Hcell as <-. exact (getitem_raises _ _ _ E2). }
    + destruct (getitem (letter_grid a creator assignment) i) as [e3 | lrow] eqn:E3.
      { injection Hcell as <-. exact (getitem_raises _ _ _ E3). }
      simpl in Hcell.
      destruct (getitem lrow j) as [e4 | letter] eqn:E4; simpl in Hcell.
      { injection Hcell as <-. exact (getitem_raises _ _ _ E4). }
      discriminate.
    + discriminate.
  - destruct (covers _ _ (structure (crossword creator))) eqn:Hs; [|now left].
    destruct (covers _ _ (letter_grid a creator assignment)) eqn:Hl; [|now right].
    rewrite (format_assignment_covered a creator assignment Hs Hl) in Hraise.
    discriminate.
Qed.

(** X2. The formatter reads the letter grid at the open cells only: two
    letter grids (of two adapters) that give the same result, a letter or
    [IndexError], when indexed at every open cell of the puzzle are
    formatted alike, whatever they hold, or lack, elsewhere. *)
Theorem format_reads_open_cells_only (a1 a2 : Adapter Assignment)
    (creator : CrosswordCreator) (assignment1 assignment2 : Assignment) :
  (forall i j,
      i < height (crossword creator) -> j < width (crossword creator) ->
      getitem2 (structure (crossword creator)) i j = inr true ->
      getitem2 (letter_grid a1 creator assignment1) i j
      = getitem2 (letter_grid a2 creator assignment2) i j) ->
  _format_assignment a1 creator assignment1
  = _format_assignment a2 creator assignment2.
Proof.
  intros Hsame. unfold _format_assignment.
  rewrite (for_in_ext _
    (fun i lines =>
       row_chars <- for_in (range (width (crossword creator)))
         (fun j row_chars =>
            srow <- getitem (structure (crossword creator)) i ;;
            cell <- getitem srow j ;;
            if (cell : bool) then
              lrow <- getitem (letter_grid a2 creator assignment2) i ;;
              letter <- getitem lrow j ;;
              ret (row_chars ++ [py_or letter " "])
            else ret (row_chars ++ ["#"])) [] ;;
       ret (lines ++ [join "" row_chars]))); [reflexivity|].
  intros i lines Hi. unfold range in Hi. apply in_seq in Hi.
  f_equal. apply for_in_ext.
  intros j row_chars Hj. unfold range in Hj. apply in_seq in Hj.
  specialize (Hsame i j ltac:(lia) ltac:(lia)). unfold getitem2 in Hsame at 1.
  destruct (getitem (structure (crossword creator)) i) as [e1 | srow];
    [reflexivity|].
  simpl in *.
  destruct (getitem srow j) as [e2 | [|]]; simpl; try reflexivity.
  rewrite !bind_getitem2 with (k := fun letter => ret (row_chars ++ [py_or letter " "])).
  now rewrite (Hsame eq_refl).
Qed.

Lemma map_const_range {A} (x : A) (n : nat) :
  map (fun _ => x) (range n) = repeat x n.
Proof.
  unfold range. generalize 0.
  induction n as [|n IH]; intros start; simpl; [reflexivity | now rewrite IH].
Qed.

(** X3. A puzzle without rows or without columns is formatted without
    reading the structure or the letter grid: the text is [height] empty
    lines joined by newlines, that is [height - 1] characters (none when
    there is no row). *)
Theorem format_empty_dimensions (a : Adapter Assignment)
    (creator : CrosswordCreator) (assignment : Assignment) :
  height (crossword creator) = 0 \/ width (crossword creator) = 0 ->
  _format_assignment a creator assignment
  = inr (join NL (repeat "" (height (crossword creator))))
  /\ String.length (join NL (repeat "" (height (crossword creator))))
     = height (crossword creator) - 1.
Proof.
  intros Hdim. split.
  - unfold _format_assignment. destruct Hdim as [-> | ->]; [reflexivity|].
    rewrite (for_in_appends (fun _ => "")).
    + simpl. now rewrite map_const_range.
    + intros i lines _. reflexivity.
  - rewrite (length_join_lines 0).
    + rewrite repeat_length. lia.
    + apply Forall_forall. intros s Hs. now apply repeat_spec in Hs as ->.
Qed.



End FormatterEdges.

(** * Further properties of the worker *)

Section WorkerPaths.

Variable Assignment : Type.
Variable a : Adapter Assignment.

(** The four ways a run of the worker can go. *)
Lemma worker_cases (app : App) :
  (exists exc,
      construct_and_solve a app = inl exc
      /\ _solve_in_thread a app
         = ([showerror ("Error while solving: " ++ exc_str exc)%string;
             status_set "Error"; button_normal], inr tt))
  \/ (exists creator,
        construct_and_solve a app = inr (creator, None)
        /\ _solve_in_thread a app
           = ([status_set "No solution found"; showinfo NO_SOLUTION_MESSAGE;
               write_output ""; button_normal], inr tt))
  \/ (exists creator assignment exc,
        construct_and_solve a app = inr (creator, Some assignment)
        /\ _format_assignment a creator assignment = inl exc
        /\ _solve_in_thread a app = ([], inl exc))
  \/ (exists creator assignment grid_text,
        construct_and_solve a app = inr (creator, Some assignment)
        /\ _format_assignment a creator assignment = inr grid_text
        /\ _solve_in_thread a app
           = (write_output grid_text :: status_set "Solved"
                :: export_notice a app creator assignment ++ [button_normal],
              inr tt)).
Proof.
  destruct (construct_and_solve a app) as [exc | [creator [assignment|]]] eqn:E.
  - left. exists exc. split; [reflexivity | exact (worker_error_path _ a app exc E)].
  - destruct (_format_assignment a creator assignment) as [exc | grid_text] eqn:F.
    + right. right. left. exists creator, assignment, exc.
      split; [reflexivity|]. split; [exact F|].
      exact (worker_format_raises _ a app creator assignment exc E F).
    + right. right. right. exists creator, assignment, grid_text.
      split; [reflexivity|]. split; [exact F|].
      exact (worker_solved_path _ a app creator assignment grid_text E F).
  - right. left. exists creator.
    split; [reflexivity | exact (worker_no_solution_path _ a app creator E)].
Qed.

(** What the optional export schedules, by the outcome of [save]. *)
Lemma export_notice_cases (app : App) (creator : CrosswordCreator)
    (assignment : Assignment) :
  (nonempty (output_path app) = false
   /\ export_notice a app creator assignment = [])
  \/ (nonempty (output_path app) = true
      /\ save a creator assignment (output_path app) = inr tt
      /\ export_notice a app creator assignment
         = [showinfo ("Image saved to " ++ output_path app)%string])
  \/ (nonempty (output_path app) = true
      /\ exists exc,
           save a creator assignment (output_path app) = inl exc
           /\ export_notice a app creator assignment
              = [showerror (if isinstance_ImportError exc then PILLOW_MESSAGE
                            else ("Could not save image: " ++ exc_str exc)%string)]).
Proof.
  unfold export_notice.
  destruct (nonempty (output_path app)); [|now left].
  destruct (save a creator assignment (output_path app)) as [exc | []].
  - right. right. split; [reflexivity|]. exists exc. split; [reflexivity|].
    now destruct (isinstance_ImportError exc).
  - right. left. auto.
Qed.

(** X5. Whatever the collaborators do, one run of the worker schedules at
    most one message box, at most one write of the output, at most one
    status and at most one enabling of the button; and when an exception
    leaves the worker, it has scheduled nothing at all. *)
Theorem worker_schedules_at_most_once (app : App) :
  List.length (filter is_dialog (fst (_solve_in_thread a app))) <= 1
  /\ List.length (filter is_write (fst (_solve_in_thread a app))) <= 1
  /\ List.length (filter is_status (fst (_solve_in_thread a app))) <= 1
  /\ List.length (filter is_enable (fst (_solve_in_thread a app))) <= 1
  /\ (forall exc, snd (_solve_in_thread a app) = inl exc ->
        fst (_solve_in_thread a app) = []).
Proof.
  destruct (worker_cases app)
    as [(exc & _ & ->)
       | [(creator & _ & ->)
       | [(creator & assignment & exc & _ & _ & ->)
       | (creator & assignment & grid_text & _ & _ & ->)]]];
    simpl; try (repeat split; try lia; discriminate || reflexivity).
  rewrite !filter_app, !length_app.
  destruct (export_notice_cases app creator assignment)
    as [(_ & ->) | [(_ & _ & ->) | (_ & exc & _ & ->)]];
    simpl; repeat split; try lia; discriminate.
Qed.

(** X6. The worker consults [save] only after a solve that gave an
    assignment and with an output path entered: with an empty output path,
    or when the solver did not return an assignment, replacing [save] by
    any other function changes nothing in what the worker does. *)
Theorem worker_ignores_save (app : App)
    (save' : CrosswordCreator -> Assignment -> string -> Py unit) :
  nonempty (output_path app) = false
  \/ (forall creator assignment,
        construct_and_solve a app <> inr (creator, Some assignment)) ->
  _solve_in_thread (with_save a save') app = _solve_in_thread a app.
Proof.
  intros Hcond. unfold _solve_in_thread.
  change (construct_and_solve (with_save a save') app)
    with (construct_and_solve a app).
  destruct (construct_and_solve a app) as [exc | [creator [assignment|]]] eqn:E;
    try reflexivity.
  change (_format_assignment (with_save a save') creator assignment)
    with (_format_assignment a creator assignment).
  destruct Hcond as [Hempty | Hnone].
  - rewrite Hempty. reflexivity.
  - now destruct (Hnone creator assignment).
Qed.

(** X7. An information dialog tells the truth: the worker schedules one
    only with the no-solution message after [solve] returned [None], or
    with the image-saved message, naming the output path, after [save]
    returned normally for a solved puzzle and a non-empty path. *)
Theorem info_dialog_has_a_cause (app : App) (message : string) :
  In (showinfo message) (fst (_solve_in_thread a app)) ->
  (message = NO_SOLUTION_MESSAGE
   /\ exists creator, construct_and_solve a app = inr (creator, None))
  \/ (message = ("Image saved to " ++ output_path app)%string
      /\ nonempty (output_path app) = true
      /\ exists creator assignment,
           construct_and_solve a app = inr (creator, Some assignment)
           /\ save a creator assignment (output_path app) = inr tt).
Proof.
  destruct (worker_cases app)
    as [(exc & _ & ->)
       | [(creator & E & ->)
       | [(creator & assignment & exc & _ & _ & ->)
       | (creator & assignment & grid_text & E & _ & ->)]]];
    simpl; intros Hin.
  - destruct Hin as [H | [H | [H | []]]]; discriminate H.
  - left. destruct Hin as [H | [H | [H | [H | []]]]]; try discriminate H.
    injection H as <-. split; [reflexivity | now exists creator].
  - destruct Hin.
  - right. destruct Hin as [H | [H | Hin]]; try discriminate H.
    apply in_app_or in Hin. destruct Hin as [Hin | [H | []]]; [|discriminate H].
    destruct (export_notice_cases app creator assignment)
      as [(_ & Hn) | [(Hpath & Hsave & Hn) | (_ & exc & _ & Hn)]];
      rewrite Hn in Hin; simpl in Hin.
    + destruct Hin.
    + destruct Hin as [H | []]. injection H as <-.
      split; [reflexivity|]. split; [exact Hpath|].
      now exists creator, assignment.
    + destruct Hin as [H | []]. discriminate H.
Qed.

(** X8. An error dialog has a cause too: the worker schedules one only
    when the construction of the model or the solver raised, with the
    exception's text after [Error while solving: ], or when [save] raised
    for a solved puzzle, with the Pillow message for an [ImportError] and
    the exception's text after [Could not save image: ] otherwise. *)
Theorem error_dialog_has_a_cause (app : App) (message : string) :
  In (showerror message) (fst (_solve_in_thread a app)) ->
  (exists exc,
      construct_and_solve a app = inl exc
      /\ message = ("Error while solving: " ++ exc_str exc)%string)
  \/ (exists creator assignment exc,
        construct_and_solve a app = inr (creator, Some assignment)
        /\ nonempty (output_path app) = true
        /\ save a creator assignment (output_path app) = inl exc
        /\ message = (if isinstance_ImportError exc then PILLOW_MESSAGE
                      else ("Could not save image: " ++ exc_str exc)%string)).
Proof.
  destruct (worker_cases app)
    as [(exc & E & ->)
       | [(creator & _ & ->)
       | [(creator & assignment & exc & _ & _ & ->)
       | (creator & assignment & grid_text & E & _ & ->)]]];
    simpl; intros Hin.
  - left. destruct Hin as [H | [H | [H | []]]]; try discriminate H.
    injection H as <-. now exists exc.
  - destruct Hin as [H | [H | [H | [H | []]]]]; discriminate H.
  - destruct Hin.
  - right. destruct Hin as [H | [H | Hin]]; try discriminate H.
    apply in_app_or in Hin. destruct Hin as [Hin | [H | []]]; [|discriminate H].
    destruct (export_notice_cases app creator assignment)
      as [(_ & Hn) | [(_ & _ & Hn) | (Hpath & exc & Hsave & Hn)]];
      rewrite Hn in Hin; simpl in Hin.
    + destruct Hin.
    + destruct Hin as [H | []]. discriminate H.
    + destruct Hin as [H | []]. injection H as <-.
      now exists creator, assignment, exc.
Qed.

(** X9. The status [Solved] is scheduled only for a solver's assignment
    that the formatter has rendered, and directly after the write of the
    rendered grid: when the event loop shows [Solved], the grid of this
    solve is already in the output. *)
Theorem solved_status_follows_the_grid (app : App) :
  In (status_set "Solved") (fst (_solve_in_thread a app)) ->
  exists creator assignment grid_text rest,
    construct_and_solve a app = inr (creator, Some assignment)
    /\ _format_assignment a creator assignment = inr grid_text
    /\ fst (_solve_in_thread a app)
       = write_output grid_text :: status_set "Solved" :: rest
    /\ filter is_write rest = []
    /\ filter is_status rest = [].
Proof.
  destruct (worker_cases app)
    as [(exc & _ & ->)
       | [(creator & _ & ->)
       | [(creator & assignment & exc & _ & _ & ->)
       | (creator & assignment & grid_text & E & F & ->)]]];
    simpl; intros Hin.
  - destruct Hin as [H | [H | [H | []]]]; discriminate H.
  - destruct Hin as [H | [H | [H | [H | []]]]]; discriminate H.
  - destruct Hin.
  - exists creator, assignment, grid_text, (export_notice a app creator assignment ++ [button_normal]).
    split; [exact E|]. split; [exact F|]. split; [reflexivity|].
    rewrite !filter_app.
    destruct (export_notice_cases app creator assignment)
      as [(_ & ->) | [(_ & _ & ->) | (_ & exc & _ & ->)]];
      split; reflexivity.
Qed.

End WorkerPaths.

(** * Further properties of the event loop and of the running application *)

Section EventLoop.

Lemma run_all_app (cbs1 cbs2 : list Callback) (app : App) :
  run_all (cbs1 ++ cbs2) app = run_all cbs2 (run_all cbs1 app).
Proof.
  unfold run_all. apply fold_left_app.
Qed.

Lemma run_all_frame (cbs : list Callback) :
  forall app,
    after_queue (run_all cbs app) = after_queue app
    /\ threads (run_all cbs app) = threads app
    /\ structure_path (run_all cbs app) = structure_path app
    /\ words_path (run_all cbs app) = words_path app
    /\ output_path (run_all cbs app) = output_path app.
Proof.
  induction cbs as [|cb cbs IH]; intros app; [repeat split|].
  change (run_all (cb :: cbs) app) with (run_all cbs (run_callback cb app)).
  destruct (IH (run_callback cb app)) as (-> & -> & -> & -> & ->).
  apply run_callback_frame.
Qed.

Lemma run_all_no_status (cbs : list Callback) :
  filter is_status cbs = [] ->
  forall app, status_var (run_all cbs app) = status_var app.
Proof.
  induction cbs as [|cb cbs IH]; intros Hnone app; [reflexivity|].
  change (run_all (cb :: cbs) app) with (run_all cbs (run_callback cb app)).
  simpl in Hnone. destruct cb; try discriminate Hnone;
    rewrite (IH Hnone); reflexivity.
Qed.

Lemma run_all_no_write (cbs : list Callback) :
  filter is_write cbs = [] ->
  forall app, output (run_all cbs app) = output app.
Proof.
  induction cbs as [|cb cbs IH]; intros Hnone app; [reflexivity|].
  change (run_all (cb :: cbs) app) with (run_all cbs (run_callback cb app)).
  simpl in Hnone. destruct cb; try discriminate Hnone;
    rewrite (IH Hnone); reflexivity.
Qed.

(** X10. Running scheduled callbacks never removes or reorders a message
    box and never disables the button: the dialogs shown afterwards are
    those shown before followed by one dialog, titled [Crossword Solver],
    per [showinfo] or [showerror] callback, in order; the button is enabled
    if one of the callbacks enables it and is as before otherwise; the
    paths, the queue and the threads are not touched. *)
Theorem callbacks_add_dialogs_and_enable (cbs : list Callback) (app : App) :
  dialogs (run_all cbs app) = dialogs app ++ flat_map dialog_of cbs
  /\ solve_button (run_all cbs app)
     = (if existsb is_enable cbs then NORMAL else solve_button app)
  /\ after_queue (run_all cbs app) = after_queue app
  /\ threads (run_all cbs app) = threads app
  /\ structure_path (run_all cbs app) = structure_path app
  /\ words_path (run_all cbs app) = words_path app
  /\ output_path (run_all cbs app) = output_path app.
Proof.
  split; [|split; [|apply run_all_frame]].
  - revert app. induction cbs as [|cb cbs IH]; intros app.
    + simpl. now rewrite app_nil_r.
    + change (run_all (cb :: cbs) app) with (run_all cbs (run_callback cb app)).
      rewrite IH. simpl flat_map. rewrite app_assoc. f_equal.
      destruct cb; simpl; now rewrite ?app_nil_r.
  - revert app. induction cbs as [|cb cbs IH]; intros app; [reflexivity|].
    change (run_all (cb :: cbs) app) with (run_all cbs (run_callback cb app)).
    rewrite IH. simpl existsb.
    destruct cb; simpl; try reflexivity.
    now destruct (existsb is_enable cbs).
Qed.

(** X11. Of the callbacks run, the last status update and the last write
    of the output win: after a [status_set] followed by callbacks that set
    no status, the status is its text; after a [write_output] followed by
    callbacks that write no output, the output holds exactly its text
    (whatever it held before) and is read-only. *)
Theorem last_status_and_last_write_win (before after_status after_write
    : list Callback) (status text : string) (app : App) :
  filter is_status after_status = [] ->
  filter is_write after_write = [] ->
  status_var (run_all (before ++ status_set status :: after_status) app) = status
  /\ output (run_all (before ++ write_output text :: after_write) app)
     = {| text_state := DISABLED; text_content := text |}.
Proof.
  intros Hstatus Hwrite. split.
  - rewrite run_all_app.
    change (run_all (status_set status :: after_status) (run_all before app))
      with (run_all after_status
              (run_callback (status_set status) (run_all before app))).
    now rewrite (run_all_no_status _ Hstatus).
  - rewrite run_all_app.
    change (run_all (write_output text :: after_write) (run_all before app))
      with (run_all after_write
              (run_callback (write_output text) (run_all before app))).
    now rewrite (run_all_no_write _ Hwrite).
Qed.

End EventLoop.

Section Running.

Variable Assignment : Type.

(** *** What an execution shows *)

Lemma obs_run_callback (cb : Callback) (x y : App) :
  obs x = obs y -> obs (run_callback cb x) = obs (run_callback cb y).
Proof.
  unfold obs. intros [= Hs Ho Hd].
  destruct cb; simpl; unfold _write_output; simpl; congruence.
Qed.

Lemma obs_run_all (cbs : list Callback) :
  forall x y, obs x = obs y -> obs (run_all cbs x) = obs (run_all cbs y).
Proof.
  induction cbs as [|cb cbs IH]; intros x y Hxy; [exact Hxy|].
  change (obs (run_all cbs (run_callback cb x))
          = obs (run_all cbs (run_callback cb y))).
  now apply IH, obs_run_callback.
Qed.

Lemma step_obs (app app' : App) (l : Label) :
  step Assignment app l app' -> obs app' = obs (run_all (applied [l]) app).
Proof.
  intros Hstep.
  destruct Hstep as [a app Hbtn | sp wp op app | cb q app Hq
                    | ts1 cb rest exc ts2 app Hts]; try reflexivity.
  change (obs (run_callback cb (set_after_queue q app))
          = obs (run_callback cb app)).
  now apply obs_run_callback.
Qed.

Lemma applied_cons (l : Label) (tr : list Label) :
  applied (l :: tr) = applied [l] ++ applied tr.
Proof.
  unfold applied. simpl. now rewrite app_nil_r.
Qed.

(** X13. What the user sees changes through the event loop only, and in
    the order in which it runs the callbacks: after any execution, the
    status, the output and the dialogs are those obtained by running, from
    the starting point, the callbacks the event loop has run, whatever
    clicks, edits and worker steps came in between. *)
Theorem display_is_the_callbacks_run (app app' : App) (tr : list Label) :
  exec Assignment app tr app' ->
  status_var app' = status_var (run_all (applied tr) app)
  /\ output app' = output (run_all (applied tr) app)
  /\ dialogs app' = dialogs (run_all (applied tr) app).
Proof.
  intros Hexec.
  assert (Hobs : obs app' = obs (run_all (applied tr) app)).
  { induction Hexec as [app | app l app1 tr app2 Hstep _ IH]; [reflexivity|].
    rewrite applied_cons, run_all_app, IH.
    apply obs_run_all. now apply step_obs. }
  unfold obs in Hobs. injection Hobs as Hs Ho Hd. auto.
Qed.

(** *** Threads *)

Lemma step_threads (app app' : App) (l : Label) :
  step Assignment app l app' ->
  List.length (threads app')
  = List.length (threads app) + (if is_click l then 1 else 0).
Proof.
  intros Hstep.
  destruct Hstep as [a app Hbtn | sp wp op app | cb q app Hq
                    | ts1 cb rest exc ts2 app Hts]; simpl.
  - rewrite length_app. simpl. lia.
  - lia.
  - destruct (run_callback_frame cb (set_after_queue q app)) as (_ & -> & _).
    simpl. lia.
  - rewrite Hts, !length_app. simpl. lia.
Qed.

(** X14. One thread is started per click, and none otherwise; and at
    every point the application reaches, at most one of the threads started
    has callbacks left to schedule: two workers never publish at the same
    time. *)
Theorem one_thread_per_click (tr : list Label) (app : App) :
  exec Assignment CrosswordApp_init tr app ->
  List.length (threads app) = List.length (filter is_click tr)
  /\ List.length (filter has_posts (threads app)) <= 1.
Proof.
  intros Hexec. split.
  - change (List.length (threads app)
            = List.length (threads CrosswordApp_init)
              + List.length (filter is_click tr)).
    induction Hexec as [app | app l app1 tr app2 Hstep _ IH]; [simpl; lia|].
    rewrite IH, (step_threads _ _ _ Hstep). simpl.
    destruct (is_click l); simpl; lia.
  - assert (Hreach : reachable Assignment app) by now exists tr.
    now destruct (reachable_inv _ _ Hreach).
Qed.

(** X15. The output widget is read-only at every point the application
    reaches: it is created disabled and [_write_output] disables it again
    after each write. *)
Theorem output_is_read_only (tr : list Label) (app : App) :
  exec Assignment CrosswordApp_init tr app ->
  text_state (output app) = DISABLED.
Proof.
  intros Hexec.
  assert (Hstart : text_state (output CrosswordApp_init) = DISABLED)
    by reflexivity.
  revert Hstart.
  induction Hexec as [app | app l app1 tr app2 Hstep _ IH]; [trivial|].
  intros Hstart. apply IH. clear IH.
  destruct Hstep as [a app Hbtn | sp wp op app | cb q app Hq
                    | ts1 cb rest exc ts2 app Hts]; try exact Hstart.
  destruct cb; try exact Hstart. reflexivity.
Qed.

End Running.

(** * The button after a solve *)

Section Recovery.

Variable Assignment : Type.

Lemma closing_ends (l : list Callback) :
  closing l -> exists l', l = l' ++ [button_normal].
Proof.
  induction 1 as [|cb l _ _ [l' ->]]; [now exists [] | now exists (cb :: l')].
Qed.

Lemma publishing_ends (l : list Callback) :
  publishing l -> exists l', l = l' ++ [button_normal].
Proof.
  induction 1 as [t l _ Hl | cb l _ _ [l' ->]].
  - destruct (closing_ends l Hl) as [l' ->]. now exists (status_set t :: l').
  - now exists (cb :: l').
Qed.

Lemma existsb_crashed_posts (ts1 ts2 : list Thread) (posts posts' : list Callback)
    (exc : option PyException) :
  existsb crashed (ts1 ++ mkThread posts' exc :: ts2)
  = existsb crashed (ts1 ++ mkThread posts exc :: ts2).
Proof.
  now rewrite !existsb_app.
Qed.

Lemma pending_post (app : App) (ts1 ts2 : list Thread) (cb : Callback)
    (rest : list Callback) (exc : option PyException) :
  List.length (filter has_posts (threads app)) <= 1 ->
  threads app = ts1 ++ mkThread (cb :: rest) exc :: ts2 ->
  pending app = after_queue app ++ cb :: rest
  /\ pending (set_threads (ts1 ++ mkThread rest exc :: ts2)
                (set_after_queue (after_queue app ++ [cb]) app))
     = after_queue app ++ cb :: rest.
Proof.
  intros Hone Hts. rewrite Hts in Hone.
  destruct (filter_at_most_one ts1 ts2 (mkThread (cb :: rest) exc) eq_refl Hone)
    as [H1 H2].
  apply no_posts_concat in H1, H2.
  unfold pending. simpl. rewrite Hts, !map_app, !concat_app. simpl.
  rewrite H1, H2. simpl. rewrite !app_nil_r, <- app_assoc. auto.
Qed.

Lemma recovering_init : Recovering CrosswordApp_init.
Proof.
  intros H. discriminate H.
Qed.

Lemma recovering_step (app app' : App) (l : Label) :
  Inv app -> Recovering app -> step Assignment app l app' -> Recovering app'.
Proof.
  intros [Hone Hph] Hrec Hstep.
  destruct Hstep as [a app Hbtn | sp wp op app | cb q app Hq
                    | ts1 cb rest exc ts2 app Hts].
  - (* a click: the new thread crashed or ends with the enabling *)
    intros _. rewrite Hbtn in Hph. apply phase_normal_inv in Hph.
    destruct Hph as [Hp _]. apply app_eq_nil in Hp. destruct Hp as [Hq Hc].
    unfold pending. simpl. rewrite existsb_app, map_app, concat_app, Hq, Hc.
    simpl. rewrite app_nil_r, orb_false_r.
    set (app1 := set_solve_button DISABLED _).
    unfold Thread_new, crashed. simpl.
    destruct (worker_script _ a app1) as [[exc ->] | (posts & -> & Hp)]; simpl.
    + left. apply orb_true_r.
    + right. destruct (publishing_ends posts Hp) as [l' ->].
      now exists (status_set "Solving..." :: l').
  - exact Hrec.
  - (* the event loop runs a callback *)
    destruct (run_callback_frame cb (set_after_queue q app)) as (Hq' & Hts' & _).
    intros Hbtn'.
    assert (Hbtn : solve_button app = DISABLED).
    { destruct (solve_button app) eqn:Hb; [|reflexivity].
      apply phase_normal_inv in Hph. destruct Hph as [Hp _].
      unfold pending in Hp. rewrite Hq in Hp. discriminate Hp. }
    unfold pending in *. rewrite Hq', Hts'. simpl.
    destruct (Hrec Hbtn) as [Hcrash | [l' Hl']]; [now left|].
    right. unfold pending in Hl'. rewrite Hq in Hl'. simpl in Hl'.
    destruct l' as [|cb' l']; simpl in Hl'.
    + injection Hl' as -> _. discriminate Hbtn'.
    + injection Hl' as _ ->. now exists l'.
  - (* a worker schedules its next callback *)
    destruct (pending_post app ts1 ts2 cb rest exc Hone Hts) as [Hp Hp'].
    intros Hbtn. unfold Recovering in Hrec. rewrite Hp in Hrec.
    rewrite Hp'. simpl threads.
    rewrite (existsb_crashed_posts ts1 ts2 (cb :: rest) rest exc), <- Hts.
    exact (Hrec Hbtn).
Qed.

Lemma recovering_exec (app app' : App) (tr : list Label) :
  exec Assignment app tr app' -> Inv app -> Recovering app ->
  Inv app' /\ Recovering app'.
Proof.
  induction 1 as [|app l app1 tr app2 Hstep _ IH]; [auto|].
  intros Hinv Hrec. apply IH.
  - exact (inv_step _ _ _ _ Hinv Hstep).
  - exact (recovering_step _ _ _ Hinv Hrec Hstep).
Qed.

(** X16. Only a crash leaves the button disabled.  At every point the
    application reaches where the button is disabled and no callback is
    pending (none queued, none left to a thread), the status is
    [Solving...] and one of the threads was ended by an exception that left
    [_solve_in_thread]. *)
Theorem disabled_at_rest_means_a_crash (tr : list Label) (app : App) :
  exec Assignment CrosswordApp_init tr app ->
  solve_button app = DISABLED ->
  pending app = [] ->
  status_var app = "Solving..."
  /\ existsb crashed (threads app) = true.
Proof.
  intros Hexec Hbtn Hp.
  destruct (recovering_exec _ _ _ Hexec (inv_init) recovering_init)
    as [[_ Hph] Hrec].
  split.
  - rewrite Hbtn, Hp in Hph.
    inversion Hph as [ | | ? Hw | ? ? ? Hl]; subst; [reflexivity | inversion Hl].
  - destruct (Hrec Hbtn) as [Hcrash | [l' Hl']]; [exact Hcrash|].
    rewrite Hp in Hl'. now destruct l'.
Qed.

(** X17. And such a point is final: from a point where the button is
    disabled and no callback is pending, no execution enables the button,
    changes the status, the output or the dialogs, or starts a thread; only
    the paths can still be edited. *)
Theorem disabled_at_rest_is_forever (app app' : App) (tr : list Label) :
  solve_button app = DISABLED ->
  pending app = [] ->
  exec Assignment app tr app' ->
  solve_button app' = DISABLED
  /\ pending app' = []
  /\ status_var app' = status_var app
  /\ output app' = output app
  /\ dialogs app' = dialogs app
  /\ threads app' = threads app
  /\ Forall (fun l => l = Edit) tr.
Proof.
  intros Hbtn Hp Hexec. revert Hbtn Hp.
  induction Hexec as [app | app l app1 tr app2 Hstep _ IH]; intros Hbtn Hp.
  - repeat split; auto.
  - destruct Hstep as [a app Hnormal | sp wp op app | cb q app Hq
                      | ts1 cb rest exc ts2 app Hts].
    + congruence.
    + destruct (IH Hbtn Hp) as (H1 & H2 & H3 & H4 & H5 & H6 & H7).
      repeat split; auto.
    + unfold pending in Hp. rewrite Hq in Hp. discriminate Hp.
    + unfold pending in Hp. apply app_eq_nil in Hp. destruct Hp as [_ Hc].
      rewrite Hts, map_app, concat_app in Hc. simpl in Hc.
      apply app_eq_nil in Hc. destruct Hc as [_ Hc]. discriminate Hc.
Qed.

(** *** Running to rest *)

Lemma set_nothing (app : App) (posts : list Callback) :
  posts = [] ->
  set_threads (threads app) (set_after_queue (after_queue app ++ posts) app) = app.
Proof.
  intros ->. rewrite app_nil_r. now destruct app.
Qed.

Lemma exec_post_thread (posts : list Callback) :
  forall (app : App) (ts1 ts2 : list Thread) (exc : option PyException),
    threads app = ts1 ++ mkThread posts exc :: ts2 ->
    exec Assignment app (map Post posts)
      (set_threads (ts1 ++ mkThread [] exc :: ts2)
         (set_after_queue (after_queue app ++ posts) app)).
Proof.
  induction posts as [|cb rest IH]; intros app ts1 ts2 exc Hts.
  - rewrite <- Hts, set_nothing by reflexivity. apply exec_nil.
  - simpl map. eapply exec_cons; [exact (step_post _ ts1 cb rest exc ts2 app Hts)|].
    set (app1 := set_threads _ _).
    specialize (IH app1 ts1 ts2 exc eq_refl).
    replace (set_threads (ts1 ++ mkThread [] exc :: ts2)
               (set_after_queue (after_queue app ++ cb :: rest) app))
      with (set_threads (ts1 ++ mkThread [] exc :: ts2)
              (set_after_queue (after_queue app1 ++ rest) app1)); [exact IH|].
    subst app1. unfold set_threads, set_after_queue. simpl.
    now rewrite <- app_assoc.
Qed.

Lemma set_after_queue_run_callback (cb : Callback) (q q' : list Callback)
    (app : App) :
  set_after_queue q (run_callback cb (set_after_queue q' app))
  = run_callback cb (set_after_queue q app).
Proof.
  destruct cb; reflexivity.
Qed.

Lemma exec_run_queue (q : list Callback) :
  forall app : App,
    after_queue app = q ->
    exec Assignment app (map Run q) (run_all q (set_after_queue [] app)).
Proof.
  induction q as [|cb q IH]; intros app Hq.
  - simpl. rewrite <- Hq.
    replace (set_after_queue (after_queue app) app) with app by now destruct app.
    apply exec_nil.
  - simpl map. eapply exec_cons; [exact (step_run _ cb q app Hq)|].
    set (app1 := run_callback cb (set_after_queue q app)).
    assert (Hq1 : after_queue app1 = q)
      by (subst app1; now destruct cb).
    specialize (IH app1 Hq1).
    change (run_all (cb :: q) (set_after_queue [] app))
      with (run_all q (run_callback cb (set_after_queue [] app))).
    subst app1. now rewrite set_after_queue_run_callback in IH.
Qed.

(** X18. The button always comes back unless a worker crashed.  From every
    point the application reaches in which no thread was ended by an
    exception, the threads scheduling what they have left and the event
    loop running its queue lead to a point where the button is enabled, no
    callback is pending and the status is [Idle] or a terminal one. *)
Theorem button_comes_back (tr : list Label) (app : App) :
  exec Assignment CrosswordApp_init tr app ->
  existsb crashed (threads app) = false ->
  exists tr' app',
    exec Assignment app tr' app'
    /\ solve_button app' = NORMAL
    /\ pending app' = []
    /\ at_rest (status_var app') = true
    /\ Forall (fun l => is_post l = true \/ exists cb, l = Run cb) tr'.
Proof.
  intros Hexec Hsafe.
  destruct (recovering_exec _ _ _ Hexec inv_init recovering_init)
    as [[Hone _] _].
  (* first the threads schedule what they have left *)
  assert (Hposted : exists tr1 app1,
            exec Assignment app tr1 app1
            /\ List.concat (map to_post (threads app1)) = []
            /\ existsb crashed (threads app1) = false
            /\ Forall (fun l => is_post l = true \/ exists cb, l = Run cb) tr1).
  { destruct (filter has_posts (threads app)) as [|t live] eqn:Hlive.
    - exists [], app. split; [apply exec_nil|].
      split; [now apply no_posts_concat|]. split; [exact Hsafe | constructor].
    - assert (Hin : In t (filter has_posts (threads app)))
        by (rewrite Hlive; now left).
      apply filter_In in Hin. destruct Hin as [Hin Hposts].
      apply in_split in Hin. destruct Hin as (ts1 & ts2 & Hts).
      destruct t as [posts exc].
      rewrite <- Hlive, Hts in Hone.
      destruct (filter_at_most_one ts1 ts2 _ Hposts Hone) as [H1 H2].
      apply no_posts_concat in H1, H2.
      eexists. eexists. split; [exact (exec_post_thread posts app ts1 ts2 exc Hts)|].
      simpl. split; [|split].
      + rewrite map_app, concat_app. simpl. now rewrite H1, H2.
      + rewrite (existsb_crashed_posts ts1 ts2 posts [] exc), <- Hts.
        exact Hsafe.
      + apply Forall_forall. intros l Hl. apply in_map_iff in Hl.
        destruct Hl as (cb & <- & _). now left. }
  destruct Hposted as (tr1 & app1 & Hexec1 & Hnone & Hsafe1 & Htr1).
  (* then the event loop runs its queue *)
  pose proof (exec_run_queue (after_queue app1) app1 eq_refl) as Hexec2.
  set (app2 := run_all (after_queue app1) (set_after_queue [] app1)) in *.
  destruct (run_all_frame (after_queue app1) (set_after_queue [] app1))
    as (Hq2 & Hts2 & _).
  fold app2 in Hq2, Hts2. simpl in Hq2, Hts2.
  assert (Hp2 : pending app2 = []).
  { unfold pending. now rewrite Hq2, Hts2, Hnone. }
  pose proof (exec_app _ _ _ _ _ _ Hexec (exec_app _ _ _ _ _ _ Hexec1 Hexec2))
    as Hall.
  destruct (recovering_exec _ _ _ Hall inv_init recovering_init)
    as [[_ Hph2] Hrec2].
  exists (tr1 ++ map Run (after_queue app1)), app2.
  split; [exact (exec_app _ _ _ _ _ _ Hexec1 Hexec2)|].
  assert (Hbtn2 : solve_button app2 = NORMAL).
  { destruct (solve_button app2) eqn:Hb; [reflexivity|].
    destruct (Hrec2 Hb) as [Hcrash | [l' Hl']].
    - rewrite Hts2 in Hcrash. congruence.
    - rewrite Hp2 in Hl'. now destruct l'. }
  split; [exact Hbtn2|]. split; [exact Hp2|]. split.
  - rewrite Hbtn2 in Hph2. now apply phase_normal_inv in Hph2.
  - apply Forall_app. split; [exact Htr1|].
    apply Forall_forall. intros l Hl. apply in_map_iff in Hl.
    destruct Hl as (cb & <- & _). right. now exists cb.
Qed.

End Recovery.

(** * Dialogs and the initial status along executions *)

Section Accounting.

Variable Assignment : Type.

Lemma worker_dialog_count (a : Adapter Assignment) (app : App) :
  List.length (filter is_dialog (to_post (Thread_new a app))) <= 1.
Proof.
  unfold Thread_new. simpl.
  destruct (worker_cases _ a app)
    as [(exc & _ & ->)
       | [(creator & _ & ->)
       | [(creator & assignment & exc & _ & _ & ->)
       | (creator & assignment & grid_text & _ & _ & ->)]]];
    simpl; try lia.
  rewrite filter_app, length_app.
  destruct (export_notice_cases _ a app creator assignment)
    as [(_ & ->) | [(_ & _ & ->) | (_ & exc & _ & ->)]]; simpl; lia.
Qed.

Lemma length_dialogs_run_callback (cb : Callback) (app : App) :
  List.length (dialogs (run_callback cb app))
  = List.length (dialogs app) + (if is_dialog cb then 1 else 0).
Proof.
  destruct cb; simpl; rewrite ?length_app; simpl; lia.
Qed.

Lemma step_dialog_budget (app app' : App) (l : Label) :
  step Assignment app l app' ->
  List.length (dialogs app') + List.length (filter is_dialog (pending app'))
  <= List.length (dialogs app) + List.length (filter is_dialog (pending app))
     + (if is_click l then 1 else 0).
Proof.
  intros Hstep.
  destruct Hstep as [a app Hbtn | sp wp op app | cb q app Hq
                    | ts1 cb rest exc ts2 app Hts].
  - unfold pending. simpl.
    rewrite map_app, concat_app, !filter_app, !length_app. simpl.
    rewrite app_nil_r.
    pose proof (worker_dialog_count a
                  (set_solve_button DISABLED
                     (set_after_queue
                        (after_queue app ++ [status_set "Solving..."]) app))).
    unfold Thread_new in H. simpl in H. lia.
  - unfold pending. simpl. lia.
  - destruct (run_callback_frame cb (set_after_queue q app)) as (Hq' & Hts' & _).
    unfold pending. rewrite Hq', Hts', Hq, length_dialogs_run_callback. simpl.
    rewrite !filter_app, !length_app.
    destruct (is_dialog cb); simpl; rewrite ?length_app; lia.
  - unfold pending. simpl.
    rewrite Hts, !map_app, !concat_app. simpl.
    rewrite !filter_app, !length_app. simpl. rewrite ?filter_app, ?length_app.
    destruct (is_dialog cb); simpl; rewrite ?length_app; lia.
Qed.

(** X19. At most one message box per solve: at every point the
    application reaches, the dialogs shown so far, together with those
    still pending, are no more than the clicks on Solve. *)
Theorem one_dialog_per_solve_at_most (tr : list Label) (app : App) :
  exec Assignment CrosswordApp_init tr app ->
  List.length (dialogs app) + List.length (filter is_dialog (pending app))
  <= List.length (filter is_click tr).
Proof.
  intros Hexec.
  change (List.length (dialogs app) + List.length (filter is_dialog (pending app))
          <= List.length (dialogs CrosswordApp_init)
             + List.length (filter is_dialog (pending CrosswordApp_init))
             + List.length (filter is_click tr)).
  induction Hexec as [app | app l app1 tr app2 Hstep _ IH]; [simpl; lia|].
  pose proof (step_dialog_budget _ _ _ Hstep) as Hl.
  simpl filter. destruct (is_click l); simpl in *; lia.
Qed.

Lemma terminal_not_idle (status : string) :
  terminal status = true -> status <> "Idle".
Proof.
  intros H ->. discriminate H.
Qed.

Lemma idle_step (app app' : App) (l : Label) :
  Inv app -> step Assignment app l app' ->
  (status_var app = "Idle" -> status_var app' = "Idle" -> obs app' = obs app)
  /\ (status_var app <> "Idle" -> status_var app' <> "Idle").
Proof.
  intros Hinv Hstep.
  pose proof (step_status _ _ _ _ Hinv Hstep) as Hstatus.
  split.
  - intros Hidle Hidle'.
    destruct Hstep as [a app Hbtn | sp wp op app | cb q app Hq
                      | ts1 cb rest exc ts2 app Hts]; try reflexivity.
    destruct Hinv as [_ Hph]. unfold pending in Hph. rewrite Hq in Hph.
    simpl in Hph.
    destruct (solve_button app) eqn:Hbtn.
    { apply phase_normal_inv in Hph. destruct Hph as [Hp _]. discriminate Hp. }
    apply phase_disabled_inv in Hph.
    destruct Hph as [(-> & _)
                    | [(Hs & _)
                    | [(Hs & _)
                    | [(Ht & _)
                    | (Ht & _)]]]].
    + simpl in Hidle'. discriminate Hidle'.
    + rewrite Hidle in Hs. discriminate Hs.
    + rewrite Hidle in Hs. discriminate Hs.
    + now apply terminal_not_idle in Ht.
    + now apply terminal_not_idle in Ht.
  - intros Hnot.
    destruct Hstatus as [-> | [[_ ->] | [_ Ht]]];
      [exact Hnot | discriminate | now apply terminal_not_idle].
Qed.

(** X20. [Idle] is the status before the first solve only.  While the
    application shows [Idle], nothing has been shown yet: no dialog, and
    the output as created; and once the status is no longer [Idle], no
    execution brings [Idle] back. *)
Theorem idle_only_before_the_first_solve (tr tr' : list Label) (app app' : App) :
  exec Assignment CrosswordApp_init tr app ->
  exec Assignment app tr' app' ->
  (status_var app = "Idle" ->
     dialogs app = [] /\ output app = output CrosswordApp_init)
  /\ (status_var app <> "Idle" -> status_var app' <> "Idle").
Proof.
  intros Hexec Hexec'. split.
  - assert (Hgen : forall start,
              Inv start -> exec Assignment start tr app ->
              status_var app = "Idle" ->
              status_var start = "Idle" /\ obs app = obs start).
    { clear. intros start Hinv Hexec. 
      induction Hexec as [app | app l app1 tr app2 Hstep _ IH]; [auto|].
      intros Hidle.
      destruct (IH (inv_step _ _ _ _ Hinv Hstep) Hidle) as [Hidle1 Hobs].
      destruct (idle_step _ _ _ Hinv Hstep) as [Hkeep Hleft].
      assert (Hidle0 : status_var app = "Idle").
      { destruct (string_dec (status_var app) "Idle") as [H | H]; [exact H|].
        now destruct (Hleft H). }
      split; [exact Hidle0|]. rewrite Hobs. now apply Hkeep. }
    intros Hidle.
    destruct (Hgen _ inv_init Hexec Hidle) as [_ Hobs].
    unfold obs in Hobs. injection Hobs as _ Ho Hd. now rewrite Ho, Hd.
  - assert (Hinv : Inv app) by exact (inv_exec _ _ _ _ Hexec inv_init).
    clear Hexec. revert Hinv.
    induction Hexec' as [app | app l app1 tr' app2 Hstep _ IH]; [auto|].
    intros Hinv Hnot. apply IH.
    + exact (inv_step _ _ _ _ Hinv Hstep).
    + now apply (idle_step _ _ _ Hinv Hstep).
Qed.

End Accounting.

(** * A solve from the click to rest *)

Section Publishing.

Variable Assignment : Type.

Lemma solve_in_thread_paths (a : Adapter Assignment) (x y : App) :
  structure_path x = structure_path y ->
  words_path x = words_path y ->
  output_path x = output_path y ->
  _solve_in_thread a x = _solve_in_thread a y.
Proof.
  intros Hs Hw Ho. unfold _solve_in_thread, construct_and_solve.
  now rewrite Hs, Hw, Ho.
Qed.

Lemma exec_queue (app app' : App) (tr : list Label) :
  exec Assignment app tr app' ->
  after_queue app ++ posted tr = applied tr ++ after_queue app'.
Proof.
  induction 1 as [app | app l app1 tr app2 Hstep _ IH].
  - simpl. now rewrite app_nil_r.
  - pose proof (step_queue _ _ _ _ Hstep) as Hq.
    unfold posted, applied in *. simpl in Hq |- *.
    rewrite !app_nil_r in Hq.
    rewrite app_assoc, Hq, <- app_assoc, IH, app_assoc. reflexivity.
Qed.

Lemma exec_obs (app app' : App) (tr : list Label) :
  exec Assignment app tr app' -> obs app' = obs (run_all (applied tr) app).
Proof.
  induction 1 as [app | app l app1 tr app2 Hstep _ IH]; [reflexivity|].
  rewrite applied_cons, run_all_app, IH.
  apply obs_run_all. exact (step_obs Assignment _ _ _ Hstep).
Qed.

Lemma run_all_dialogs (cbs : list Callback) :
  forall app, dialogs (run_all cbs app) = dialogs app ++ flat_map dialog_of cbs.
Proof.
  induction cbs as [|cb cbs IH]; intros app.
  - simpl. now rewrite app_nil_r.
  - change (run_all (cb :: cbs) app) with (run_all cbs (run_callback cb app)).
    rewrite IH. simpl flat_map. rewrite app_assoc. f_equal.
    destruct cb; simpl; now rewrite ?app_nil_r.
Qed.

Lemma run_all_button (cbs : list Callback) :
  forall x y,
    solve_button x = solve_button y ->
    solve_button (run_all cbs x) = solve_button (run_all cbs y).
Proof.
  induction cbs as [|cb cbs IH]; intros x y Hxy; [exact Hxy|].
  change (solve_button (run_all cbs (run_callback cb x))
          = solve_button (run_all cbs (run_callback cb y))).
  apply IH. destruct cb; simpl; auto.
Qed.

(** While only the event loop and the workers move, the button is what
    the callbacks run have made of it. *)
Lemma exec_button (app app' : App) (tr : list Label) :
  exec Assignment app tr app' ->
  forallb is_run_or_post tr = true ->
  solve_button app' = solve_button (run_all (applied tr) app).
Proof.
  induction 1 as [app | app l app1 tr app2 Hstep _ IH]; [reflexivity|].
  simpl forallb. intros Hmoves. apply andb_true_iff in Hmoves.
  destruct Hmoves as [Hl Htr].
  rewrite applied_cons, run_all_app, (IH Htr).
  apply run_all_button.
  destruct Hstep as [a app Hbtn | sp wp op app | cb q app Hq
                    | ts1 cb rest exc ts2 app Hts]; try discriminate Hl.
  - simpl. now destruct cb.
  - reflexivity.
Qed.

(** What the threads had to schedule at the start is what they scheduled,
    in order, followed by what they have left. *)
Lemma exec_posts (app app' : App) (tr : list Label) :
  exec Assignment app tr app' ->
  Inv app ->
  forallb is_run_or_post tr = true ->
  List.concat (map to_post (threads app))
  = posted tr ++ List.concat (map to_post (threads app')).
Proof.
  induction 1 as [app | app l app1 tr app2 Hstep _ IH]; [reflexivity|].
  simpl forallb. intros Hinv Hmoves. apply andb_true_iff in Hmoves.
  destruct Hmoves as [Hl Htr].
  specialize (IH (inv_step _ _ _ _ Hinv Hstep) Htr).
  destruct Hinv as [Hone _].
  destruct Hstep as [a app Hbtn | sp wp op app | cb q app Hq
                    | ts1 cb rest exc ts2 app Hts]; try discriminate Hl.
  - destruct (run_callback_frame cb (set_after_queue q app)) as (_ & Hts' & _).
    rewrite Hts' in IH. exact IH.
  - rewrite Hts in Hone.
    destruct (filter_at_most_one ts1 ts2 (mkThread (cb :: rest) exc) eq_refl Hone)
      as [H1 H2].
    apply no_posts_concat in H1, H2.
    simpl threads in IH. rewrite map_app, concat_app in IH. simpl in IH.
    rewrite H1, H2, app_nil_r in IH. simpl in IH.
    rewrite Hts, map_app, concat_app. simpl.
    rewrite H1, H2, app_nil_r. simpl.
    unfold posted. simpl. now rewrite IH.
Qed.

Ltac in_cases :=
  repeat match goal with
         | H : In _ (_ :: _) |- _ => destruct H as [H | H]
         | H : In _ [] |- _ => destruct H
         | H : _ \/ _ |- _ => destruct H as [H | H]
         | H : False |- _ => destruct H
         end.

Ltac by_callback :=
  in_cases;
  try match goal with H : @eq Callback _ _ |- _ => discriminate H end;
  try match goal with H : @eq Callback _ _ |- _ => injection H as <- end;
  try reflexivity.

(** Running the worker's callbacks puts its effects in place. *)
Lemma script_effects (a : Adapter Assignment) (app x : App) :
  (forall status, In (status_set status) (fst (_solve_in_thread a app)) ->
     status_var (run_all (fst (_solve_in_thread a app)) x) = status)
  /\ (forall text, In (write_output text) (fst (_solve_in_thread a app)) ->
        output (run_all (fst (_solve_in_thread a app)) x)
        = {| text_state := DISABLED; text_content := text |})
  /\ (In button_normal (fst (_solve_in_thread a app)) ->
        solve_button (run_all (fst (_solve_in_thread a app)) x) = NORMAL).
Proof.
  destruct (worker_cases _ a app)
    as [(exc & _ & ->)
       | [(creator & _ & ->)
       | [(creator & assignment & exc & _ & _ & ->)
       | (creator & assignment & grid_text & _ & _ & ->)]]].
  - simpl. split; [|split]; intros; by_callback.
  - simpl. split; [|split]; intros; by_callback.
  - simpl. split; [|split]; intros; by_callback.
  - destruct (export_notice_cases _ a app creator assignment)
      as [(_ & ->) | [(_ & _ & ->) | (_ & exc & _ & ->)]];
      simpl; (split; [|split]); intros; by_callback.
Qed.

(** What the worker schedules on each of its paths. *)
Lemma script_contents (a : Adapter Assignment) (app : App) :
  (snd (_solve_in_thread a app) = inr tt ->
     exists status,
       terminal status = true
       /\ In (status_set status) (fst (_solve_in_thread a app))
       /\ In button_normal (fst (_solve_in_thread a app)))
  /\ (forall exc,
        construct_and_solve a app = inl exc ->
        In (showerror ("Error while solving: " ++ exc_str exc)%string)
          (fst (_solve_in_thread a app)))
  /\ (forall creator,
        construct_and_solve a app = inr (creator, None) ->
        In (showinfo NO_SOLUTION_MESSAGE) (fst (_solve_in_thread a app))
        /\ In (write_output "") (fst (_solve_in_thread a app)))
  /\ (forall creator assignment grid_text,
        construct_and_solve a app = inr (creator, Some assignment) ->
        _format_assignment a creator assignment = inr grid_text ->
        In (write_output grid_text) (fst (_solve_in_thread a app))).
Proof.
  split; [|split; [|split]].
  - destruct (worker_cases _ a app)
      as [(exc & _ & ->)
         | [(creator & _ & ->)
         | [(creator & assignment & exc & _ & _ & ->)
         | (creator & assignment & grid_text & _ & _ & ->)]]];
      simpl; intros Hret.
    + exists "Error". split; [reflexivity|]. split; simpl; auto 10.
    + exists "No solution found". split; [reflexivity|]. split; simpl; auto 10.
    + discriminate Hret.
    + exists "Solved". split; [reflexivity|]. split; [now right; left|].
      right. right. apply in_or_app. right. now left.
  - intros exc E. rewrite (worker_error_path _ a app exc E). now left.
  - intros creator E. rewrite (worker_no_solution_path _ a app creator E).
    split; simpl; auto 10.
  - intros creator assignment grid_text E F.
    rewrite (worker_solved_path _ a app creator assignment grid_text E F).
    now left.
Qed.

(** C8. Every effect of the worker reaches the application through
    [root.after] and the event loop, in the order in which it was
    scheduled.  After a click at a point the application can reach, and
    whatever happens then: the event loop runs the status update of the
    click and then the callbacks scheduled, first scheduled first run; and
    the status, the output and the dialogs are at every point what the
    callbacks run have made of them, a step of a worker changing none of
    them.  While the entries are not edited and no further click is made:
    the worker schedules the callbacks of [_solve_in_thread] in program
    order; the button is what the callbacks run have made of it; and once
    no callback is pending, the event loop has run exactly the worker's
    callbacks and each of the worker's effects is in place: its status
    text, its grid, its dialog and the enabling of the button.  The worker
    does have these effects to schedule: a terminal status and the
    enabling whenever it returns, the error dialog, the no-solution dialog
    with the clearing of the output, or the rendered grid, by its path. *)
Theorem worker_effects_go_through_the_queue (a : Adapter Assignment)
    (app app' : App) (tr : list Label) :
  reachable Assignment app ->
  solve_button app = NORMAL ->
  exec Assignment (_solve a app) tr app' ->
  status_set "Solving..." :: posted tr = applied tr ++ after_queue app'
  /\ status_var app' = status_var (run_all (applied tr) app)
  /\ output app' = output (run_all (applied tr) app)
  /\ dialogs app' = dialogs (run_all (applied tr) app)
  /\ (forallb is_run_or_post tr = true ->
        (exists later, fst (_solve_in_thread a app) = posted tr ++ later)
        /\ solve_button app'
           = solve_button (run_all (applied tr) (set_solve_button DISABLED app))
        /\ (pending app' = [] ->
              applied tr = status_set "Solving..." :: fst (_solve_in_thread a app)
              /\ dialogs app'
                 = dialogs app
                   ++ flat_map dialog_of (fst (_solve_in_thread a app))
              /\ (forall status,
                    In (status_set status) (fst (_solve_in_thread a app)) ->
                    status_var app' = status)
              /\ (forall text,
                    In (write_output text) (fst (_solve_in_thread a app)) ->
                    output app'
                    = {| text_state := DISABLED; text_content := text |})
              /\ (In button_normal (fst (_solve_in_thread a app)) ->
                    solve_button app' = NORMAL)))
  /\ (snd (_solve_in_thread a app) = inr tt ->
        exists status,
          terminal status = true
          /\ In (status_set status) (fst (_solve_in_thread a app))
          /\ In button_normal (fst (_solve_in_thread a app)))
  /\ (forall exc,
        construct_and_solve a app = inl exc ->
        In (showerror ("Error while solving: " ++ exc_str exc)%string)
          (fst (_solve_in_thread a app)))
  /\ (forall creator,
        construct_and_solve a app = inr (creator, None) ->
        In (showinfo NO_SOLUTION_MESSAGE) (fst (_solve_in_thread a app))
        /\ In (write_output "") (fst (_solve_in_thread a app)))
  /\ (forall creator assignment grid_text,
        construct_and_solve a app = inr (creator, Some assignment) ->
        _format_assignment a creator assignment = inr grid_text ->
        In (write_output grid_text) (fst (_solve_in_thread a app))).
Proof.
  intros Hreach Hbtn Hexec.
  pose proof (reachable_inv _ _ Hreach) as Hinv.
  (* at the click nothing is queued and no thread has callbacks left *)
  destruct Hinv as [Hone Hph]. pose proof Hph as Hph0.
  rewrite Hbtn in Hph0. apply phase_normal_inv in Hph0.
  destruct Hph0 as [Hp _]. apply app_eq_nil in Hp. destruct Hp as [Hq Hc].
  assert (Hinv1 : Inv (_solve a app))
    by exact (inv_step _ _ _ _ (conj Hone Hph) (step_click _ a app Hbtn)).
  pose proof (exec_queue _ _ _ Hexec) as Hfifo.
  simpl after_queue in Hfifo. rewrite Hq in Hfifo. simpl in Hfifo.
  pose proof (exec_obs _ _ _ Hexec) as Hobs.
  assert (Hobs0 : obs (run_all (applied tr) (_solve a app))
                  = obs (run_all (applied tr) app))
    by (now apply obs_run_all).
  rewrite Hobs0 in Hobs. unfold obs in Hobs. injection Hobs as Hs Ho Hd.
  split; [exact Hfifo|].
  split; [exact Hs|]. split; [exact Ho|]. split; [exact Hd|].
  split; [|apply script_contents].
  intros Hmoves.
  (* the thread started by the click holds the worker's callbacks *)
  assert (Hscript : List.concat (map to_post (threads (_solve a app)))
                    = fst (_solve_in_thread a app)).
  { simpl. rewrite map_app, concat_app, Hc. simpl. rewrite app_nil_r.
    apply f_equal, solve_in_thread_paths; reflexivity. }
  pose proof (exec_posts _ _ _ Hexec Hinv1 Hmoves) as Hposts.
  rewrite Hscript in Hposts.
  pose proof (exec_button _ _ _ Hexec Hmoves) as Hb.
  assert (Hb0 : solve_button (run_all (applied tr) (_solve a app))
                = solve_button (run_all (applied tr)
                                  (set_solve_button DISABLED app)))
    by (now apply run_all_button).
  rewrite Hb0 in Hb.
  split; [eexists; exact Hposts|]. split; [exact Hb|].
  (* at rest *)
  intros Hrest. apply app_eq_nil in Hrest. destruct Hrest as [Hq' Hc'].
  rewrite Hc', app_nil_r in Hposts. rewrite Hq', app_nil_r in Hfifo.
  rewrite <- Hposts in Hfifo.
  split; [now symmetry|].
  rewrite Hs, Ho, Hd, Hb, <- Hfifo.
  change (run_all (status_set "Solving..." :: fst (_solve_in_thread a app)) app)
    with (run_all (fst (_solve_in_thread a app))
            (run_callback (status_set "Solving...") app)).
  change (run_all (status_set "Solving..." :: fst (_solve_in_thread a app))
            (set_solve_button DISABLED app))
    with (run_all (fst (_solve_in_thread a app))
            (run_callback (status_set "Solving...")
               (set_solve_button DISABLED app))).
  split; [now rewrite run_all_dialogs|].
  destruct (script_effects a app (run_callback (status_set "Solving...") app))
    as (Hstatus & Hwrite & _).
  destruct (script_effects a app
              (run_callback (status_set "Solving...")
                 (set_solve_button DISABLED app)))
    as (_ & _ & Henable).
  split; [exact Hstatus|]. split; [exact Hwrite | exact Henable].
Qed.

End Publishing.

(** * The further properties on the example collaborators *)

Lemma exec_app_stuck :
  exec (list (list PyLetter)) CrosswordApp_init
    [Click; Run (status_set "Solving...")] app_stuck.
Proof.
  apply (exec_cons _ _ _ (_solve adapter_short_grid CrosswordApp_init));
    [apply (step_click _ adapter_short_grid); reflexivity|].
  apply (exec_cons _ _ _ app_stuck);
    [apply (step_run_next _ _ _ []); vm_compute; reflexivity|].
  apply exec_nil.
Qed.

(** The letter grid of one entry on the two-row example. *)
Lemma format_raises_only_IndexError_witness :
  covers 2 3 (structure example_crossword) = false
  \/ covers 2 3 [[PyStr "C"]] = false.
Proof.
  exact (proj2
    (format_raises_only_IndexError _ adapter_short_grid example_creator
       [[PyStr "C"]] IndexError eq_refl)).
Defined.

(** The ragged grid prints as the example's solution does. *)
Lemma format_reads_open_cells_only_witness :
  _format_assignment adapter_solved example_creator example_letters
  = _format_assignment adapter_ragged example_creator example_letters_ragged.
Proof.
  apply (format_reads_open_cells_only _ adapter_solved adapter_ragged
           example_creator example_letters example_letters_ragged).
  intros i j Hi Hj Hopen. simpl in Hi, Hj.
  destruct i as [|[|i]]; [| |lia];
    (destruct j as [|[|[|j]]]; [| | |lia]);
    try reflexivity; discriminate Hopen.
Defined.

(** Two rows without columns print as one newline. *)
Lemma format_empty_dimensions_witness :
  _format_assignment adapter_solved example_creator_no_column example_letters
  = inr NL.
Proof.
  exact (proj1
    (format_empty_dimensions _ adapter_solved example_creator_no_column
       example_letters (or_intror eq_refl))).
Defined.


(** Without an output path, a failing [save] is as good as a working one. *)
Lemma worker_ignores_save_witness :
  _solve_in_thread (with_save adapter_no_pillow (fun _ _ _ => ret tt))
    CrosswordApp_init
  = _solve_in_thread adapter_no_pillow CrosswordApp_init.
Proof.
  apply (worker_ignores_save _ adapter_no_pillow CrosswordApp_init).
  left. reflexivity.
Defined.

(** The image-saved dialog of a solve with an output path. *)
Lemma info_dialog_has_a_cause_witness :
  ("Image saved to out.png" = NO_SOLUTION_MESSAGE
   /\ exists creator,
        construct_and_solve adapter_solved app_with_output = inr (creator, None))
  \/ ("Image saved to out.png" = ("Image saved to " ++ "out.png")%string
      /\ nonempty "out.png" = true
      /\ exists creator assignment,
           construct_and_solve adapter_solved app_with_output
           = inr (creator, Some assignment)
           /\ save adapter_solved creator assignment "out.png" = inr tt).
Proof.
  apply (info_dialog_has_a_cause _ adapter_solved app_with_output
           "Image saved to out.png").
  simpl. right. right. left. reflexivity.
Defined.

(** The Pillow dialog of a solve whose image cannot be saved. *)
Lemma error_dialog_has_a_cause_witness :
  (exists exc,
      construct_and_solve adapter_no_pillow app_with_output = inl exc
      /\ PILLOW_MESSAGE = ("Error while solving: " ++ exc_str exc)%string)
  \/ (exists creator assignment exc,
        construct_and_solve adapter_no_pillow app_with_output
        = inr (creator, Some assignment)
        /\ nonempty (output_path app_with_output) = true
        /\ save adapter_no_pillow creator assignment (output_path app_with_output)
           = inl exc
        /\ PILLOW_MESSAGE
           = (if isinstance_ImportError exc then PILLOW_MESSAGE
              else ("Could not save image: " ++ exc_str exc)%string)).
Proof.
  apply (error_dialog_has_a_cause _ adapter_no_pillow app_with_output
           PILLOW_MESSAGE).
  simpl. right. right. left. reflexivity.
Defined.

(** The solved example: the grid, then [Solved]. *)
Lemma solved_status_follows_the_grid_witness :
  exists creator assignment grid_text rest,
    construct_and_solve adapter_solved CrosswordApp_init
    = inr (creator, Some assignment)
    /\ _format_assignment adapter_solved creator assignment = inr grid_text
    /\ fst (_solve_in_thread adapter_solved CrosswordApp_init)
       = write_output grid_text :: status_set "Solved" :: rest
    /\ filter is_write rest = []
    /\ filter is_status rest = [].
Proof.
  apply (solved_status_follows_the_grid _ adapter_solved CrosswordApp_init).
  simpl. right. left. reflexivity.
Defined.

(** A second status and a second write replace the first ones. *)
Lemma last_status_and_last_write_win_witness :
  status_var
    (run_all ([write_output example_text; status_set "Solving..."]
                ++ status_set "Solved" :: [button_normal])
       CrosswordApp_init) = "Solved"
  /\ output
       (run_all ([write_output example_text; status_set "Solving..."]
                   ++ write_output "" :: [button_normal])
          CrosswordApp_init)
     = {| text_state := DISABLED; text_content := "" |}.
Proof.
  exact (last_status_and_last_write_win
           [write_output example_text; status_set "Solving..."]
           [button_normal] [button_normal] "Solved" "" CrosswordApp_init
           eq_refl eq_refl).
Defined.

(** The click and the status update of the example. *)
Lemma display_is_the_callbacks_run_witness :
  status_var app_solving
  = status_var (run_all [status_set "Solving..."] CrosswordApp_init)
  /\ output app_solving
     = output (run_all [status_set "Solving..."] CrosswordApp_init)
  /\ dialogs app_solving
     = dialogs (run_all [status_set "Solving..."] CrosswordApp_init).
Proof.
  exact (display_is_the_callbacks_run _ _ _ _ exec_app_solving).
Defined.

Lemma one_thread_per_click_witness :
  List.length (threads app_solving) = 1
  /\ List.length (filter has_posts (threads app_solving)) <= 1.
Proof.
  exact (one_thread_per_click _ _ _ exec_app_solving).
Defined.

Lemma output_is_read_only_witness :
  text_state (output app_solving) = DISABLED.
Proof.
  exact (output_is_read_only _ _ _ exec_app_solving).
Defined.

(** The worker ended by the formatter's [IndexError]. *)
Lemma disabled_at_rest_means_a_crash_witness :
  status_var app_stuck = "Solving..."
  /\ existsb crashed (threads app_stuck) = true.
Proof.
  exact (disabled_at_rest_means_a_crash _ _ _ exec_app_stuck eq_refl eq_refl).
Defined.

(** After that crash an edit of the paths is all that can happen. *)
Lemma disabled_at_rest_is_forever_witness :
  solve_button (set_paths "a.txt" "b.txt" "" app_stuck) = DISABLED
  /\ pending (set_paths "a.txt" "b.txt" "" app_stuck) = [].
Proof.
  destruct (disabled_at_rest_is_forever (list (list PyLetter)) app_stuck
              (set_paths "a.txt" "b.txt" "" app_stuck) [Edit] eq_refl eq_refl
              (exec_cons _ _ _ _ _ _ (step_edit _ "a.txt" "b.txt" "" app_stuck)
                 (exec_nil _ _)))
    as (Hbtn & Hp & _).
  split; [exact Hbtn | exact Hp].
Defined.

(** The solve of the example can be run to its end. *)
Lemma button_comes_back_witness :
  exists tr' app',
    exec (list (list PyLetter)) app_solving tr' app'
    /\ solve_button app' = NORMAL
    /\ pending app' = []
    /\ at_rest (status_var app') = true
    /\ Forall (fun l => is_post l = true \/ exists cb, l = Run cb) tr'.
Proof.
  exact (button_comes_back _ _ _ exec_app_solving eq_refl).
Defined.

Lemma one_dialog_per_solve_at_most_witness :
  List.length (dialogs app_solving)
  + List.length (filter is_dialog (pending app_solving)) <= 1.
Proof.
  exact (one_dialog_per_solve_at_most _ _ _ exec_app_solving).
Defined.

(** Before the click the status is [Idle]; after the status update it is
    not, and stays so. *)
Lemma idle_only_before_the_first_solve_witness :
  (status_var app_solving = "Idle" ->
     dialogs app_solving = [] /\ output app_solving = output CrosswordApp_init)
  /\ (status_var app_solving <> "Idle" -> status_var app_posted <> "Idle").
Proof.
  exact (idle_only_before_the_first_solve _ _ _ _ _
           exec_app_solving exec_app_posted).
Defined.

Lemma exec_clicked_done :
  exec (list (list PyLetter)) app_clicked
    [Run (status_set "Solving..."); Post (write_output example_text);
     Post (status_set "Solved"); Run (write_output example_text);
     Run (status_set "Solved"); Post button_normal; Run button_normal]
    app_done.
Proof.
  apply (exec_cons _ _ _ app_solving);
    [apply (step_run_next _ _ _ []); vm_compute; reflexivity|].
  apply (exec_cons _ _ _ app_posted);
    [apply (step_post_next _ _ _ [status_set "Solved"; button_normal] None []);
     vm_compute; reflexivity|].
  apply (exec_cons _ _ _ (post_next app_posted));
    [apply (step_post_next _ _ _ [button_normal] None []);
     vm_compute; reflexivity|].
  apply (exec_cons _ _ _ (run_next (post_next app_posted)));
    [apply (step_run_next _ _ _ [status_set "Solved"]); vm_compute; reflexivity|].
  apply (exec_cons _ _ _ app_published);
    [apply (step_run_next _ _ _ []); vm_compute; reflexivity|].
  apply (exec_cons _ _ _ (post_next app_published));
    [apply (step_post_next _ _ _ [] None []); vm_compute; reflexivity|].
  apply (exec_cons _ _ _ app_done);
    [apply (step_run_next _ _ _ []); vm_compute; reflexivity|].
  apply exec_nil.
Qed.

(** The solve of the example, from the click to rest: the event loop has
    run the status update and the worker's three callbacks, and the grid,
    the status and the button are in place. *)
Lemma worker_effects_go_through_the_queue_witness :
  [status_set "Solving..."; write_output example_text; status_set "Solved";
   button_normal]
  = status_set "Solving..."
      :: fst (_solve_in_thread adapter_solved CrosswordApp_init)
  /\ status_var app_done = "Solved"
  /\ output app_done = {| text_state := DISABLED; text_content := example_text |}
  /\ solve_button app_done = NORMAL.
Proof.
  destruct (worker_effects_go_through_the_queue _ adapter_solved
              CrosswordApp_init app_done _
              (ex_intro _ [] (exec_nil _ _)) eq_refl exec_clicked_done)
    as (_ & _ & _ & _ & Hquiet & _).
  destruct (Hquiet eq_refl) as (_ & _ & Hrest).
  destruct (Hrest eq_refl) as (Happlied & _ & Hstatus & Hwrite & Henable).
  split; [exact Happlied|].
  split; [apply Hstatus; right; left; reflexivity|].
  split; [apply Hwrite; left; reflexivity|].
  apply Henable. right. right. left. reflexivity.
Defined.
